(** * Model-Predictive-Control: the telemetry handler of [src/main.cpp]

    A shallow embedding of [main.cpp] and the properties its specification
    states about it.

    Conventions of the embedding.
    - A C++ [double] is a real number of [R]: arithmetic is exact, [pow],
      [cos], [sin] and [atan] are the functions of the real-number library.
      Where rounding decides a property, the code is also run on IEEE
      binary64 numbers: [polyeval] is written once, over an arithmetic, and
      read both on the reals and on the doubles.
    - A [std::string] is a [string]; a [size_t] is a [Z] in [0, 2^64) whose
      wrap-around is written out; [string::npos] is the [None] of an option.
    - [std::vector<double>] and [Eigen::VectorXd] are [list R].
    - The collaborators whose code is not in [main.cpp] (the JSON codec, the
      QR solver of Eigen and the optimizer behind [MPC.h]) are the fields of
      the record [Collaborators].
    - The handler runs in a small monad that records what it prints, what it
      sends, and how it ends (return, or the end of the process). *)

From Stdlib Require Import String Ascii List ZArith Lia Bool Arith.
From Stdlib Require Import Reals Lra.
From Stdlib Require Import Floats.
Import ListNotations.

Set Warnings "-inexact-float".

(** ** [std::string] operations used by [hasData] *)

Module Str.

Local Open Scope string_scope.

(** [s] contains [pat] as a contiguous substring. *)
Definition contains (pat s : string) : Prop :=
  exists pre post, s = pre ++ pat ++ post.

(** [s.find(pat)] counted from position [i] of the enclosing string:
    the first position where [pat] occurs. *)
Fixpoint find_from (pat s : string) (i : Z) : option Z :=
  if prefix pat s then Some i
  else match s with
       | EmptyString => None
       | String _ s' => find_from pat s' (i + 1)
       end.

Definition find (pat s : string) : option Z := find_from pat s 0.

(** Is the character [c] one of the characters of [chars]? *)
Fixpoint mem_char (c : ascii) (chars : string) : bool :=
  match chars with
  | EmptyString => false
  | String d chars' => if Ascii.eqb c d then true else mem_char c chars'
  end.

(** [s.find_first_of(chars)]: the first position holding one of [chars]. *)
Fixpoint find_first_of_from (chars s : string) (i : Z) : option Z :=
  match s with
  | EmptyString => None
  | String c s' =>
      if mem_char c chars then Some i else find_first_of_from chars s' (i + 1)
  end.

Definition find_first_of (chars s : string) : option Z :=
  find_first_of_from chars s 0.

(** [s.rfind(pat)]: the last position where [pat] occurs. *)
Fixpoint rfind_from (pat s : string) (i : Z) : option Z :=
  match s with
  | EmptyString => if prefix pat s then Some i else None
  | String _ s' =>
      match rfind_from pat s' (i + 1) with
      | Some k => Some k
      | None => if prefix pat s then Some i else None
      end
  end.

Definition rfind (pat s : string) : option Z := rfind_from pat s 0.

Definition size (s : string) : Z := Z.of_nat (String.length s).

(** [s.substr(pos, n)] for [pos <= s.size()]: the characters from [pos] on,
    [n] of them or as many as are left. *)
Definition substr (s : string) (pos n : Z) : string :=
  substring (Z.to_nat pos) (Z.to_nat (Z.min n (size s - pos))) s.

End Str.

(** Arithmetic of [size_t]. *)
Definition size_t_modulus : Z := 2 ^ 64.
Definition size_t_wrap (z : Z) : Z := z mod size_t_modulus.

Local Open Scope string_scope.

(** ** [hasData] (main.cpp, lines 23-33) *)

Definition hasData (s : string) : string :=
  let found_null := Str.find "null" s in
  let b1 := Str.find_first_of "[" s in
  let b2 := Str.rfind "}]" s in
  match found_null with
  | Some _ => EmptyString
  | None =>
      match b1, b2 with
      | Some b1, Some b2 => Str.substr s b1 (size_t_wrap (b2 - b1 + 2))
      | _, _ => EmptyString
      end
  end.

(** The double quote character, and the frames used in the examples. *)
Definition dquote : string := String (ascii_of_nat 34) EmptyString.
Definition quoted (s : string) : string := dquote ++ s ++ dquote.

Definition payload_null : string := "[" ++ quoted "telemetry" ++ ",null]".
Definition frame_null : string := "42" ++ payload_null.

Definition payload_steer : string := "[" ++ quoted "steer" ++ ",{}]".
Definition frame_steer : string := "42" ++ payload_steer.


(** ** Outcomes and effects

    A call either returns or ends the process: a failed [assert] calls
    [abort], and an exception nobody catches calls [std::terminate]
    (main.cpp has no [try] block). An index past the end of a
    [std::vector] has no defined behaviour: [OutOfRange] marks the point
    where a run leaves what the language defines, and the properties below
    assume it away or leave such runs out. *)

Inductive failure : Type :=
| AssertionFailed
| UncaughtException
| OutOfRange.

Inductive outcome (A : Type) : Type :=
| Ok (a : A)
| Fail (f : failure).
Arguments Ok {A} a.
Arguments Fail {A} f.

(** What the handler does to the outside world, in order. *)
Inductive event : Type :=
| Log (line : string)                  (* std::cout << line << std::endl *)
| SolveCall (state coeffs : list R)    (* mpc.Solve(state, coeffs) *)
| Sleep (ms : nat)                     (* this_thread::sleep_for *)
| Send (msg : string).                 (* ws.send(msg) *)

Definition M (A : Type) : Type := (list event * outcome A)%type.

Definition ret {A} (a : A) : M A := ([], Ok a).

Definition bind {A B} (m : M A) (k : A -> M B) : M B :=
  match m with
  | (t, Ok a) => let (t', r) := k a in ((t ++ t')%list, r)
  | (t, Fail f) => (t, Fail f)
  end.

Definition emit (e : event) : M unit := ([e], Ok tt).

Definition lift {A} (o : outcome A) : M A := ([], o).

(** A library call that throws where the option is [None]. *)
Definition throwing {A} (o : option A) : M A :=
  match o with
  | Some a => ret a
  | None => lift (Fail UncaughtException)
  end.

Declare Scope handler_scope.
Delimit Scope handler_scope with handler.
Notation "x <- m ;; k" := (bind m (fun x => k))
  (at level 61, m at next level, right associativity) : handler_scope.
Notation "' p <- m ;; k" := (bind m (fun x => match x with p => k end))
  (at level 61, p pattern, m at next level, right associativity) : handler_scope.
Notation "m ;; k" := (bind m (fun _ => k))
  (at level 61, right associativity) : handler_scope.

Definition trace {A} (m : M A) : list event := fst m.
Definition result {A} (m : M A) : outcome A := snd m.

Local Open Scope R_scope.

(** ** Arithmetic

    The operations [polyeval] uses on its numbers: zero, sum, product, and
    [pow(x, i)] for a loop index [i]. Nothing is assumed of them. *)

Record arith : Type := {
  num : Type;
  a_zero : num;
  a_add : num -> num -> num;
  a_mul : num -> num -> num;
  a_pow : num -> nat -> num
}.

(** Exact arithmetic. *)
Definition real_arith : arith :=
  {| num := R; a_zero := 0; a_add := Rplus; a_mul := Rmult; a_pow := pow |}.

(** The arithmetic of the code: IEEE binary64 sum and product, and the
    [pow] of the C library, which is not part of the repository. *)
Definition double_arith (libm_pow : PrimFloat.float -> nat -> PrimFloat.float)
  : arith :=
  {| num := PrimFloat.float;
     a_zero := PrimFloat.zero;
     a_add := PrimFloat.add;
     a_mul := PrimFloat.mul;
     a_pow := libm_pow |}.

(** A [pow] that is exact on the exponents 0 and 1, as the one of the C
    library is: [pow(x, 0)] is 1 and [pow(x, 1)] is [x]. *)
Definition exact_small_powers
    (libm_pow : PrimFloat.float -> nat -> PrimFloat.float) : Prop :=
  forall x, libm_pow x 0%nat = PrimFloat.one /\ libm_pow x 1%nat = x.

(** ** [polyeval] (main.cpp, lines 36-42)

    The loop [for (i = 0; i < coeffs.size(); i++) result += coeffs[i] * pow(x, i)]:
    [coeffs] is what is left of the vector from index [i] on. *)

Fixpoint polyeval_loop_in (A : arith) (coeffs : list (num A)) (x : num A)
    (i : nat) (result : num A) : num A :=
  match coeffs with
  | [] => result
  | c :: rest =>
      polyeval_loop_in A rest x (S i) (a_add A result (a_mul A c (a_pow A x i)))
  end.

Definition polyeval_in (A : arith) (coeffs : list (num A)) (x : num A) : num A :=
  polyeval_loop_in A coeffs x 0 (a_zero A).

(** [polyeval] in exact arithmetic. *)
Definition polyeval_loop (coeffs : list R) (x : R) (i : nat) (result : R) : R :=
  polyeval_loop_in real_arith coeffs x i result.

Definition polyeval (coeffs : list R) (x : R) : R :=
  polyeval_in real_arith coeffs x.

(** Sum of two coefficient vectors of the same size, entry by entry. *)
Fixpoint vec_add_in (A : arith) (c1 c2 : list (num A)) : list (num A) :=
  match c1, c2 with
  | a :: c1', b :: c2' => a_add A a b :: vec_add_in A c1' c2'
  | _, _ => []
  end.

Definition vec_add (c1 c2 : list R) : list R := vec_add_in real_arith c1 c2.

(** ** [polyfit] (main.cpp, lines 47-66) *)

(** Columns [1 .. order] of one row of [A]: [A(j, i+1) = A(j, i) * xvals(j)],
    [prev] being [A(j, i)]. *)
Fixpoint design_row (xj : R) (order : nat) (prev : R) : list R :=
  match order with
  | O => []
  | S k => let a := prev * xj in a :: design_row xj k a
  end.

(** The matrix [A] after both loops, as the list of its rows. *)
Definition design_matrix (xvals : list R) (order : nat) : list (list R) :=
  map (fun xj => 1 :: design_row xj order 1) xvals.

Definition vec_size (v : list R) : Z := Z.of_nat (length v).

Section Polyfit.

(** [A.householderQr().solve(yvals)] of Eigen. *)
Variable householderQr_solve : list (list R) -> list R -> list R.

Definition polyfit (xvals yvals : list R) (order : Z) : outcome (list R) :=
  if negb (vec_size xvals =? vec_size yvals)%Z then Fail AssertionFailed
  else if negb ((1 <=? order)%Z && (order <=? vec_size xvals - 1)%Z)
  then Fail AssertionFailed
  else Ok (householderQr_solve (design_matrix xvals (Z.to_nat order)) yvals).

End Polyfit.

(** ** [mapToVehicleCoordinateTransform] (main.cpp, lines 68-73) *)

Definition mapToVehicleCoordinateTransform (x y px py psi : R) : R * R :=
  let new_x_val := cos (- psi) * (x - px) - sin (- psi) * (y - py) in
  let new_y_val := cos (- psi) * (y - py) + sin (- psi) * (x - px) in
  (new_x_val, new_y_val).

(** ** [mapToVehicleCoordinatesTransform] (main.cpp, lines 76-92)

    [todo] counts the iterations left, [i] is the loop index; [x[i]] and
    [y[i]] are read by index, and the results are pushed at the back. With
    fewer [y] than [x], [y[i]] is read past the end, which is not defined
    and which [OutOfRange] marks. *)

Fixpoint transform_loop (todo i : nat) (x y : list R) (px py psi : R)
    (new_x new_y : list R) : outcome (list R * list R) :=
  match todo with
  | O => Ok (new_x, new_y)
  | S todo' =>
      match nth_error x i, nth_error y i with
      | Some old_x_val, Some old_y_val =>
          let '(new_x_val, new_y_val) :=
            mapToVehicleCoordinateTransform old_x_val old_y_val px py psi in
          transform_loop todo' (S i) x y px py psi
            (new_x ++ [new_x_val])%list (new_y ++ [new_y_val])%list
      | _, _ => Fail OutOfRange
      end
  end.

Definition mapToVehicleCoordinatesTransform (x y : list R) (px py psi : R)
  : outcome (list R * list R) :=
  transform_loop (length x) 0 x y px py psi [] [].

(** The formula of the specification for one point. *)
Definition to_vehicle_frame (px py psi : R) (p : R * R) : R * R :=
  let dx := fst p - px in
  let dy := snd p - py in
  (cos psi * dx + sin psi * dy, - sin psi * dx + cos psi * dy).

(** The points [(x[i], y[i])] in the vehicle frame, and their coordinates. *)
Definition frame_points (px py psi : R) (xs ys : list R) : list (R * R) :=
  map (to_vehicle_frame px py psi) (combine xs ys).

Definition vehicle_xs (px py psi : R) (xs ys : list R) : list R :=
  map fst (frame_points px py psi xs ys).

Definition vehicle_ys (px py psi : R) (xs ys : list R) : list R :=
  map snd (frame_points px py psi xs ys).

(** ** The state handed to the optimizer (main.cpp, lines 136-140) *)

Definition coeff (coeffs : list R) (i : nat) : R := nth i coeffs 0.

Definition cross_track_error (coeffs : list R) : R :=
  polyeval coeffs 0 - 0.

Definition heading_error (coeffs : list R) : R :=
  - atan (coeff coeffs 1 + 2 * coeff coeffs 2 * 0 + 3 * coeff coeffs 3 * 0 ^ 2).

Definition build_state (coeffs : list R) (v : R) : list R :=
  let cte := cross_track_error coeffs in
  let epsi := heading_error coeffs in
  [0; 0; 0; v; cte; epsi].

(** ** Steering and throttle (main.cpp, lines 148-149) *)

Definition max_steer_divisor : R := - 0.436332.

(** [vars[i]] of a [std::vector], for [i] inside the vector; past the end
    the read is not defined, which [OutOfRange] marks. *)
Definition vector_at (vars : list R) (i : nat) : outcome R :=
  match nth_error vars i with
  | Some v => Ok v
  | None => Fail OutOfRange
  end.

Definition bind_outcome {A B} (o : outcome A) (k : A -> outcome B) : outcome B :=
  match o with
  | Ok a => k a
  | Fail f => Fail f
  end.

Definition actuation (vars : list R) : outcome (R * R) :=
  bind_outcome (vector_at vars 6) (fun v6 =>
  bind_outcome (vector_at vars 7) (fun v7 =>
    let steer_value := v6 / max_steer_divisor in
    let throttle_value := v7 in
    Ok (steer_value, throttle_value))).

(** ** The outgoing message (main.cpp, lines 151-176) *)

Record ControlResponse : Type := {
  steering_angle : R;
  throttle : R;
  mpc_x : list R;
  mpc_y : list R;
  next_x : list R;
  next_y : list R
}.

(** ** The collaborators of the handler *)

Record Collaborators : Type := {
  (** a decoded [nlohmann::json] value *)
  json : Type;
  (** [json::parse(s)]; [None] where it throws *)
  json_parse : string -> option json;
  (** [j[0].get<string>()]; [None] where it throws *)
  json_event : json -> option string;
  (** [vector<double> v = j[1][key]]; [None] where it throws *)
  json_numbers : json -> string -> option (list R);
  (** [double d = j[1][key]]; [None] where it throws *)
  json_number : json -> string -> option R;
  (** [msgJson.dump()] *)
  json_dump : ControlResponse -> string;
  (** [A.householderQr().solve(yvals)] *)
  qr_solve : list (list R) -> list R -> list R;
  (** [mpc.Solve(state, coeffs)] *)
  mpc_Solve : list R -> list R -> list R * list R * list R
}.

Local Open Scope string_scope.

(** The reply of the manual-driving branch (main.cpp, line 192). *)
Definition manual_msg : string := "42[" ++ quoted "manual" ++ ",{}]".

Definition steer_msg (dumped : string) : string :=
  "42[" ++ quoted "steer" ++ "," ++ dumped ++ "]".

(** [sdata[i] == c], for [i] inside the string. *)
Definition char_is (s : string) (i : nat) (c : ascii) : bool :=
  match String.get i s with
  | Some d => Ascii.eqb d c
  | None => false
  end.

Definition is_empty (s : string) : bool :=
  match s with
  | EmptyString => true
  | String _ _ => false
  end.

(** [string(data)] for a [char *data]: the characters before the first NUL. *)
Fixpoint c_string (data : string) : string :=
  match data with
  | EmptyString => EmptyString
  | String c rest =>
      if Ascii.eqb c "000" then EmptyString else String c (c_string rest)
  end.

(** No character of [s] is NUL. *)
Fixpoint no_nul (s : string) : bool :=
  match s with
  | EmptyString => true
  | String c rest => negb (Ascii.eqb c "000") && no_nul rest
  end.

(** ** The message handler (main.cpp, lines 100-196) *)

Section Handler.

Variable env : Collaborators.

Local Open Scope handler_scope.

(** Lines 114-189: one telemetry cycle on the decoded message [j]. *)
Definition telemetry_cycle (j : json env) : M unit :=
  ptsx <- throwing (json_numbers env j "ptsx") ;;
  ptsy <- throwing (json_numbers env j "ptsy") ;;
  px <- throwing (json_number env j "x") ;;
  py <- throwing (json_number env j "y") ;;
  psi <- throwing (json_number env j "psi") ;;
  v <- throwing (json_number env j "speed") ;;
  ' (ptsx_car, ptsy_car) <- lift (mapToVehicleCoordinatesTransform ptsx ptsy px py psi) ;;
  coeffs <- lift (polyfit (qr_solve env) ptsx_car ptsy_car 3) ;;
  let state := build_state coeffs v in
  emit (SolveCall state coeffs) ;;
  let '(vars, x_vars, y_vars) := mpc_Solve env state coeffs in
  ' (steer_value, throttle_value) <- lift (actuation vars) ;;
  let msgJson := {| steering_angle := steer_value;
                    throttle := throttle_value;
                    mpc_x := x_vars;
                    mpc_y := y_vars;
                    next_x := ptsx_car;
                    next_y := ptsy_car |} in
  let msg := steer_msg (json_dump env msgJson) in
  emit (Log msg) ;;
  emit (Sleep 100) ;;
  emit (Send msg).

(** The body of the handler once [sdata] is built (lines 106-195). *)
Definition onMessage_frame (sdata : string) : M unit :=
  emit (Log sdata) ;;
  if (2 <? Str.size sdata)%Z && char_is sdata 0 "4" && char_is sdata 1 "2"
  then
    let s := hasData sdata in
    if negb (is_empty s) then
      j <- throwing (json_parse env s) ;;
      event <- throwing (json_event env j) ;;
      if String.eqb event "telemetry" then telemetry_cycle j
      else ret tt
    else
      emit (Send manual_msg)
  else ret tt.

(** The handler: [sdata = string(data).substr(0, length)] (line 105), where
    [string(data)] is [data] read as a C string. *)
Definition onMessage (data : string) (length : nat) : M unit :=
  onMessage_frame (substring 0 length (c_string data)).

(** The process status after a run of the event loop. *)
Inductive status : Type :=
| Listening
| Dead (f : failure).

(** [h.run()]: the frames of one connection, handled one after the other
    for as long as the process lives. *)
Fixpoint serve (frames : list string) : list event * status :=
  match frames with
  | [] => ([], Listening)
  | sdata :: later =>
      match onMessage_frame sdata with
      | (t, Ok _) => let (t', st) := serve later in ((t ++ t')%list, st)
      | (t, Fail f) => (t, Dead f)
      end
  end.

End Handler.

(** ** The sum of the specification: [f(x) = sum over i of c_i * x^i] *)

Definition sum_list (l : list R) : R := fold_right Rplus 0%R l.

Definition poly_sum (c : list R) (x : R) : R :=
  sum_list (map (fun i => (coeff c i * x ^ i)%R) (seq 0 (length c))).

(** The derivative of the specification:
    [f'(x) = sum over i >= 1 of (i * c_i) * x^(i-1)]. *)
Definition poly_deriv_sum (c : list R) (x : R) : R :=
  sum_list (map (fun i => (INR i * coeff c i * x ^ (i - 1))%R)
                (seq 1 (length c - 1))).

(** ** A concrete set of collaborators and concrete frames

    A codec that knows four payloads, a solver that returns the zero vector
    of the right size and an optimizer with a fixed answer: enough to run
    the handler on concrete frames. *)

Record sample_json : Type := {
  sj_event : string;
  sj_ptsx : list R;
  sj_ptsy : list R;
  sj_x : R;
  sj_y : R;
  sj_psi : R;
  sj_speed : R
}.

Definition telemetry_body (pts : string) : string :=
  "{" ++ quoted "ptsx" ++ ":" ++ pts ++ "," ++ quoted "ptsy" ++ ":" ++ pts ++ ","
      ++ quoted "x" ++ ":0," ++ quoted "y" ++ ":0," ++ quoted "psi" ++ ":0,"
      ++ quoted "speed" ++ ":10}".

(** Three waypoints on the diagonal, vehicle at the origin, speed 10. *)
Definition payload_short : string :=
  "[" ++ quoted "telemetry" ++ "," ++ telemetry_body "[1,2,3]" ++ "]".
Definition frame_short : string := "42" ++ payload_short.

(** The scenario of the specification: five waypoints on the diagonal. *)
Definition payload_diag : string :=
  "[" ++ quoted "telemetry" ++ "," ++ telemetry_body "[1,2,3,4,5]" ++ "]".

(** A frame with a complete payload that also holds the word [null]. *)
Definition frame_null_inside : string :=
  "42[" ++ quoted "telemetry" ++ ",{" ++ quoted "x" ++ ":null}]".

Definition sample_telemetry (pts : list R) : sample_json :=
  {| sj_event := "telemetry"; sj_ptsx := pts; sj_ptsy := pts;
     sj_x := 0; sj_y := 0; sj_psi := 0; sj_speed := 10 |}.

Definition sample_parse (s : string) : option sample_json :=
  if String.eqb s payload_steer then
    Some {| sj_event := "steer"; sj_ptsx := []; sj_ptsy := [];
            sj_x := 0; sj_y := 0; sj_psi := 0; sj_speed := 0 |}
  else if String.eqb s payload_short then
    Some (sample_telemetry [1; 2; 3]%R)
  else if String.eqb s payload_diag then
    Some (sample_telemetry [1; 2; 3; 4; 5]%R)
  else None.

Definition sample_numbers (j : sample_json) (key : string) : option (list R) :=
  if String.eqb key "ptsx" then Some (sj_ptsx j)
  else if String.eqb key "ptsy" then Some (sj_ptsy j)
  else None.

Definition sample_number (j : sample_json) (key : string) : option R :=
  if String.eqb key "x" then Some (sj_x j)
  else if String.eqb key "y" then Some (sj_y j)
  else if String.eqb key "psi" then Some (sj_psi j)
  else if String.eqb key "speed" then Some (sj_speed j)
  else None.

Definition sample_vars : list R :=
  [0; 0; 0; 0; 0; 0; - 0.436332; 0.5]%R.

Definition sample_env : Collaborators :=
  {| json := sample_json;
     json_parse := sample_parse;
     json_event := fun j => Some (sj_event j);
     json_numbers := sample_numbers;
     json_number := sample_number;
     json_dump := fun _ => "{}";
     qr_solve := fun A _ => map (fun _ => 0%R) (hd [] A);
     mpc_Solve := fun _ _ => (sample_vars, [], []) |}.

(** ** Degrees and radians (main.cpp, lines 16-18) *)

Definition pi : R := PI.
Definition deg2rad (x : R) : R := (x * pi / 180)%R.
Definition rad2deg (x : R) : R := (x * 180 / pi)%R.

(** ** Vocabulary of the further properties *)

(** The messages a trace sends, in order. *)
Fixpoint sends (t : list event) : list string :=
  match t with
  | [] => []
  | Send msg :: t' => msg :: sends t'
  | _ :: t' => sends t'
  end.

(** The optimizer calls of a trace, in order. *)
Fixpoint solve_calls (t : list event) : list (list R * list R) :=
  match t with
  | [] => []
  | SolveCall state coeffs :: t' => (state, coeffs) :: solve_calls t'
  | _ :: t' => solve_calls t'
  end.

(** Horner's scheme, for comparison with the loop of [polyeval]. *)
Fixpoint horner (c : list R) (x : R) : R :=
  match c with
  | [] => 0%R
  | a :: c' => (a + x * horner c' x)%R
  end.

(** A coefficient vector times a scalar. *)
Definition vec_scale (k : R) (c : list R) : list R := map (Rmult k) c.

(** Squared distance between two points. *)
Definition dist2 (p q : R * R) : R :=
  ((fst p - fst q) * (fst p - fst q) + (snd p - snd q) * (snd p - snd q))%R.

(** Closes [lhs = v] when [lhs] is [(S * S + C * C) * v] up to the ring
    laws and [P] says [S * S + C * C = 1]. *)
Ltac unit_circle P :=
  match type of P with
  | (?u = 1)%R =>
      match goal with
      | |- (?lhs = ?v)%R =>
          replace lhs with (u * v)%R by ring; rewrite P; ring
      end
  end.

(** * Properties *)

(** ** Strings *)

Lemma prefix_app (p rest : string) : prefix p (p ++ rest) = true.
Proof.
  induction p as [|c p IH]; simpl.
  - destruct rest; reflexivity.
  - destruct (ascii_dec c c) as [_|N]; [exact IH | contradiction].
Qed.

Lemma prefix_split (p s : string) :
  prefix p s = true -> exists rest, s = p ++ rest.
Proof.
  revert s; induction p as [|c p IH]; intros s H.
  - exists s; reflexivity.
  - destruct s as [|d s]; simpl in H; [discriminate|].
    destruct (ascii_dec c d) as [->|_]; [|discriminate].
    destruct (IH s H) as [rest ->]. exists rest; reflexivity.
Qed.

Lemma append_assoc (a b c : string) : (a ++ b) ++ c = a ++ (b ++ c).
Proof. induction a as [|x a IH]; simpl; [reflexivity | now rewrite IH]. Qed.

Lemma prefix_contains (pat s : string) :
  prefix pat s = true -> Str.contains pat s.
Proof.
  intros H. destruct (prefix_split _ _ H) as [rest ->].
  exists EmptyString, rest. reflexivity.
Qed.

Lemma contains_cons (pat : string) (c : ascii) (s : string) :
  Str.contains pat s -> Str.contains pat (String c s).
Proof.
  intros (pre & post & ->). exists (String c pre), post. reflexivity.
Qed.

Lemma find_from_eq (pat s : string) (i : Z) :
  Str.find_from pat s i =
  if prefix pat s then Some i
  else match s with
       | EmptyString => None
       | String _ s' => Str.find_from pat s' (i + 1)
       end.
Proof. destruct s; reflexivity. Qed.

(** [find] finds every pattern the string contains. *)
Lemma find_from_contains (pat s : string) (i : Z) :
  Str.contains pat s -> exists k, Str.find_from pat s i = Some k.
Proof.
  intros (pre & post & ->). revert i.
  induction pre as [|c pre IH]; intros i; rewrite find_from_eq.
  - change (EmptyString ++ pat ++ post) with (pat ++ post).
    rewrite prefix_app. exists i; reflexivity.
  - change (String c pre ++ pat ++ post) with (String c (pre ++ pat ++ post)).
    destruct (prefix pat (String c (pre ++ pat ++ post))).
    + exists i; reflexivity.
    + apply IH.
Qed.

(** What [find_first_of] and [rfind] find is in the string. *)
Lemma find_first_of_bracket_contains (s : string) (i k : Z) :
  Str.find_first_of_from "[" s i = Some k -> Str.contains "[" s.
Proof.
  revert i; induction s as [|c s IH]; intros i H; simpl in H.
  - discriminate.
  - destruct (Ascii.eqb c "[") eqn:E.
    + apply Ascii.eqb_eq in E; subst c.
      exists EmptyString, s. reflexivity.
    + apply contains_cons. exact (IH _ H).
Qed.

Lemma rfind_from_contains (pat s : string) (i k : Z) :
  Str.rfind_from pat s i = Some k -> Str.contains pat s.
Proof.
  revert i k; induction s as [|c s IH]; intros i k H;
    cbn [Str.rfind_from] in H.
  - destruct (prefix pat EmptyString) eqn:P; [|discriminate].
    apply prefix_contains. exact P.
  - destruct (Str.rfind_from pat s (i + 1)) as [z|] eqn:E.
    + apply contains_cons. exact (IH _ _ E).
    + destruct (prefix pat (String c s)) eqn:P; [|discriminate].
      apply prefix_contains. exact P.
Qed.

(** ** [hasData] *)

Lemma hasData_null (s : string) :
  Str.contains "null" s -> hasData s = EmptyString.
Proof.
  intros H. unfold hasData, Str.find.
  destruct (find_from_contains _ _ 0 H) as [k ->]. reflexivity.
Qed.

Lemma hasData_no_bracket (s : string) :
  ~ Str.contains "[" s -> hasData s = EmptyString.
Proof.
  intros H. unfold hasData.
  destruct (Str.find "null" s); [reflexivity|].
  destruct (Str.find_first_of "[" s) as [b1|] eqn:E; [|reflexivity].
  exfalso. apply H. exact (find_first_of_bracket_contains _ _ _ E).
Qed.

Lemma hasData_no_closing (s : string) :
  ~ Str.contains "}]" s -> hasData s = EmptyString.
Proof.
  intros H. unfold hasData.
  destruct (Str.find "null" s); [reflexivity|].
  destruct (Str.find_first_of "[" s) as [b1|]; [|reflexivity].
  destruct (Str.rfind "}]" s) as [b2|] eqn:E; [|reflexivity].
  exfalso. apply H. exact (rfind_from_contains _ _ _ _ E).
Qed.

Example hasData_frame_steer : hasData frame_steer = payload_steer.
Proof. vm_compute. reflexivity. Qed.


(** [b2 - b1 + 2] wraps around when the last [}]] is before the first [[]. *)
Example hasData_wraps : hasData "}]x[abc" = "[abc".
Proof. vm_compute. reflexivity. Qed.

Example hasData_trims : hasData "42[{}]xyz" = "[{}]".
Proof. vm_compute. reflexivity. Qed.

(** C10. The search for [null] is decided first: a frame that contains
    [null] anywhere gives the empty string, whatever else it contains (a
    complete [[...}]] payload included); and so does a frame with no [[]
    character, and a frame with no [}]] substring. *)
Theorem hasData_sentinel_first (s : string) :
  Str.contains "null" s \/ ~ Str.contains "[" s \/ ~ Str.contains "}]" s ->
  hasData s = EmptyString.
Proof.
  intros [H | [H | H]].
  - exact (hasData_null _ H).
  - exact (hasData_no_bracket _ H).
  - exact (hasData_no_closing _ H).
Qed.

Lemma hasData_sentinel_first_witness :
  Str.contains "[" frame_null_inside /\ Str.contains "}]" frame_null_inside /\
  hasData frame_null_inside = EmptyString.
Proof.
  split; [|split].
  - exists "42", (quoted "telemetry" ++ ",{" ++ quoted "x" ++ ":null}]").
    reflexivity.
  - exists ("42[" ++ quoted "telemetry" ++ ",{" ++ quoted "x" ++ ":null"), EmptyString.
    reflexivity.
  - apply (hasData_sentinel_first frame_null_inside). left.
    exists ("42[" ++ quoted "telemetry" ++ ",{" ++ quoted "x" ++ ":"), "}]".
    reflexivity.
Defined.

(** ** [polyeval] *)

Section Polyeval.

Local Open Scope R_scope.

(** *** In every arithmetic *)

Lemma polyeval_loop_in_app (A : arith) (c d : list (num A)) (x : num A)
    (i : nat) (r : num A) :
  polyeval_loop_in A (c ++ d) x i r =
  polyeval_loop_in A d x (i + length c) (polyeval_loop_in A c x i r).
Proof.
  revert i r; induction c as [|a c IH]; intros i r; simpl.
  - now rewrite Nat.add_0_r.
  - rewrite IH. now rewrite Nat.add_succ_comm.
Qed.

(** One more coefficient is one more term, added last. *)
Lemma polyeval_in_snoc (A : arith) (c : list (num A)) (a x : num A) :
  polyeval_in A (c ++ [a]) x =
  a_add A (polyeval_in A c x) (a_mul A a (a_pow A x (length c))).
Proof. unfold polyeval_in. rewrite polyeval_loop_in_app. reflexivity. Qed.

(** *** In exact arithmetic *)

Lemma polyeval_loop_nil (x : R) (i : nat) (r : R) : polyeval_loop [] x i r = r.
Proof. reflexivity. Qed.

Lemma polyeval_loop_cons (a : R) (c : list R) (x : R) (i : nat) (r : R) :
  polyeval_loop (a :: c) x i r = polyeval_loop c x (S i) (r + a * x ^ i).
Proof. reflexivity. Qed.

Lemma polyeval_start (c : list R) (x : R) : polyeval c x = polyeval_loop c x 0 0.
Proof. reflexivity. Qed.

Lemma vec_add_cons (a b : R) (c1 c2 : list R) :
  vec_add (a :: c1) (b :: c2) = (a + b) :: vec_add c1 c2.
Proof. reflexivity. Qed.

Lemma polyeval_loop_app (c d : list R) (x : R) (i : nat) (r : R) :
  polyeval_loop (c ++ d) x i r =
  polyeval_loop d x (i + length c) (polyeval_loop c x i r).
Proof. exact (polyeval_loop_in_app real_arith c d x i r). Qed.

Lemma polyeval_snoc (c : list R) (a x : R) :
  polyeval (c ++ [a]) x = polyeval c x + a * x ^ length c.
Proof. exact (polyeval_in_snoc real_arith c a x). Qed.

Lemma sum_list_snoc (l : list R) (v : R) :
  sum_list (l ++ [v]) = sum_list l + v.
Proof.
  induction l as [|a l IH]; simpl.
  - ring.
  - rewrite IH. ring.
Qed.

Lemma sum_list_map_snoc (f : nat -> R) (l : list nat) (n : nat) :
  sum_list (map f (l ++ [n])) = sum_list (map f l) + f n.
Proof. rewrite map_app. apply sum_list_snoc. Qed.

Lemma coeff_app_l (c d : list R) (i : nat) :
  (i < length c)%nat -> coeff (c ++ d) i = coeff c i.
Proof. intros H. unfold coeff. now rewrite app_nth1. Qed.

Lemma coeff_snoc (c : list R) (a : R) : coeff (c ++ [a]) (length c) = a.
Proof.
  unfold coeff. rewrite app_nth2 by lia. now rewrite Nat.sub_diag.
Qed.

Lemma poly_sum_snoc (c : list R) (a x : R) :
  poly_sum (c ++ [a]) x = poly_sum c x + a * x ^ length c.
Proof.
  unfold poly_sum. rewrite length_app, Nat.add_1_r, seq_S.
  rewrite sum_list_map_snoc, coeff_snoc. f_equal. f_equal.
  apply map_ext_in. intros i Hi. apply in_seq in Hi.
  rewrite coeff_app_l by lia. reflexivity.
Qed.

Lemma polyeval_poly_sum (c : list R) (x : R) : polyeval c x = poly_sum c x.
Proof.
  induction c as [|a c IH] using rev_ind.
  - reflexivity.
  - now rewrite polyeval_snoc, poly_sum_snoc, IH.
Qed.

Lemma polyeval_loop_add (c1 c2 : list R) (x : R) (i : nat) (r1 r2 : R) :
  length c1 = length c2 ->
  polyeval_loop (vec_add c1 c2) x i (r1 + r2) =
  polyeval_loop c1 x i r1 + polyeval_loop c2 x i r2.
Proof.
  revert c2 i r1 r2; induction c1 as [|a c1 IH];
    intros [|b c2] i r1 r2 H; try discriminate.
  - reflexivity.
  - rewrite vec_add_cons, !polyeval_loop_cons.
    rewrite <- IH by (simpl in H; congruence). f_equal. ring.
Qed.

Lemma polyeval_add (c1 c2 : list R) (x : R) :
  length c1 = length c2 ->
  polyeval (vec_add c1 c2) x = polyeval c1 x + polyeval c2 x.
Proof.
  intros H. rewrite !polyeval_start.
  rewrite <- (polyeval_loop_add c1 c2 x 0 0 0 H). f_equal. ring.
Qed.

(** C9, as amended. In the arithmetic the code runs in, and in every
    other, [polyeval] starts from 0 and adds the terms [c_i * pow(x, i)]
    one by one from index 0 upwards: the term of the last coefficient is
    the last one added to the running result (no law of the arithmetic is
    used, so the order of the operations is this one and not Horner's).
    Over exact real arithmetic the value is the sum over [i] of [c_i * x^i],
    and it is linear in the coefficients: on the sum of two coefficient
    vectors of one size it is the sum of the two evaluations. *)
Theorem polyeval_direct_sum (A : arith) (cA : list (num A)) (xA : num A)
    (c : list R) (x : R) :
  polyeval_in A [] xA = a_zero A /\
  (forall a, polyeval_in A (cA ++ [a]) xA
             = a_add A (polyeval_in A cA xA)
                       (a_mul A a (a_pow A xA (length cA)))) /\
  polyeval c x = poly_sum c x /\
  (forall c2, length c = length c2 ->
              polyeval (vec_add c c2) x = polyeval c x + polyeval c2 x).
Proof.
  split; [reflexivity|].
  split; [intros a; apply polyeval_in_snoc|].
  split; [apply polyeval_poly_sum|].
  intros c2 H. apply polyeval_add. exact H.
Qed.

Lemma polyeval_direct_sum_witness :
  polyeval (vec_add [1; 2; 3] [4; 5; 6]) 2 =
  polyeval [1; 2; 3] 2 + polyeval [4; 5; 6] 2.
Proof.
  apply (proj2 (proj2 (proj2
           (polyeval_direct_sum real_arith [1; 2; 3] 2 [1; 2; 3] 2)))).
  reflexivity.
Defined.

(** The accumulation written out for three coefficients, in any
    arithmetic. *)
Example polyeval_in_three (A : arith) (c0 c1 c2 x : num A) :
  polyeval_in A [c0; c1; c2] x =
  a_add A (a_add A (a_add A (a_zero A) (a_mul A c0 (a_pow A x 0)))
                   (a_mul A c1 (a_pow A x 1)))
          (a_mul A c2 (a_pow A x 2)).
Proof. reflexivity. Qed.

Example polyeval_cubic (c0 c1 c2 c3 x : R) :
  polyeval [c0; c1; c2; c3] x = c0 + c1 * x + c2 * x ^ 2 + c3 * x ^ 3.
Proof. unfold polyeval, polyeval_in; simpl. ring. Qed.

Example polyeval_at_zero (c0 c1 c2 c3 : R) :
  polyeval [c0; c1; c2; c3] 0 = c0.
Proof. rewrite polyeval_cubic. ring. Qed.

End Polyeval.

(** C9 fails as it is stated: in the double arithmetic of the code
    [polyeval] is not linear in the coefficients. For the vectors
    [0.1, 0.1] and [0.1, 0.2] at [x = 1.5], whatever [pow] is beyond being
    exact on the exponents 0 and 1, the evaluation of the sum is
    0.6500000000000001 and the sum of the evaluations is 0.65. *)
Lemma polyeval_linearity_counterexample :
  (forall libm_pow, exact_small_powers libm_pow ->
     polyeval_in (double_arith libm_pow)
       (vec_add_in (double_arith libm_pow)
          [0.1%float; 0.1%float] [0.1%float; 0.2%float]) 1.5%float
     = 0.6500000000000001%float /\
     a_add (double_arith libm_pow)
       (polyeval_in (double_arith libm_pow) [0.1%float; 0.1%float] 1.5%float)
       (polyeval_in (double_arith libm_pow) [0.1%float; 0.2%float] 1.5%float)
     = 0.65%float) /\
  0.6500000000000001%float <> 0.65%float.
Proof.
  split.
  - intros libm_pow P. destruct (P 1.5%float) as [P0 P1].
    cbn [polyeval_in polyeval_loop_in vec_add_in double_arith
         num a_zero a_add a_mul a_pow].
    rewrite P0, P1. split; vm_compute; reflexivity.
  - intros H. vm_compute in H. discriminate.
Qed.

(** ** The derivative of the fitted polynomial *)

Section Derivative.

Local Open Scope R_scope.

Lemma derivable_pt_lim_pointwise (f g : R -> R) (x l : R) :
  (forall y, f y = g y) ->
  derivable_pt_lim f x l -> derivable_pt_lim g x l.
Proof.
  intros E D eps Heps. destruct (D eps Heps) as [delta Hd].
  exists delta. intros h Hh Hlt. rewrite <- !E. now apply Hd.
Qed.

Lemma poly_deriv_sum_snoc (c : list R) (a x : R) :
  poly_deriv_sum (c ++ [a]) x =
  poly_deriv_sum c x + INR (length c) * a * x ^ (length c - 1).
Proof.
  unfold poly_deriv_sum. rewrite length_app, Nat.add_1_r.
  destruct c as [|b c].
  - simpl. ring.
  - set (d := b :: c).
    replace (S (length d) - 1)%nat with (S (length d - 1)) by (subst d; simpl; lia).
    rewrite seq_S, sum_list_map_snoc.
    replace (1 + (length d - 1))%nat with (length d) by (subst d; simpl; lia).
    rewrite coeff_snoc. f_equal.
    f_equal. apply map_ext_in. intros i Hi. apply in_seq in Hi.
    rewrite coeff_app_l by (subst d; simpl in *; lia). reflexivity.
Qed.

(** [poly_deriv_sum c] is the derivative of [polyeval c], everywhere. *)
Lemma polyeval_derivative (c : list R) (x : R) :
  derivable_pt_lim (polyeval c) x (poly_deriv_sum c x).
Proof.
  induction c as [|a c IH] using rev_ind.
  - apply (derivable_pt_lim_pointwise (fct_cte 0)); [reflexivity|].
    unfold poly_deriv_sum; simpl. apply derivable_pt_lim_const.
  - rewrite poly_deriv_sum_snoc.
    apply (derivable_pt_lim_pointwise
             (polyeval c + mult_real_fct a (fun y => y ^ length c))%F).
    + intros y. rewrite polyeval_snoc. reflexivity.
    + replace (INR (length c) * a * x ^ (length c - 1))
        with (a * (INR (length c) * x ^ pred (length c)))
        by (rewrite Nat.sub_1_r; ring).
      apply derivable_pt_lim_plus; [exact IH|].
      apply derivable_pt_lim_scal. apply derivable_pt_lim_pow.
Qed.

Lemma poly_deriv_sum_cubic_at_zero (c0 c1 c2 c3 : R) :
  poly_deriv_sum [c0; c1; c2; c3] 0 = c1.
Proof. unfold poly_deriv_sum, coeff; simpl. ring. Qed.

(** C3. For the four coefficients of a fit and a speed [v]: the
    cross-track error is the polynomial evaluated at 0, the heading error
    is minus the arctangent of the derivative of the polynomial at 0, and
    the state is [0, 0, 0, v, cross-track error, heading error]. *)
Theorem build_state_errors (c : list R) (v : R) :
  length c = 4%nat ->
  cross_track_error c = polyeval c 0 /\
  derivable_pt_lim (polyeval c) 0 (poly_deriv_sum c 0) /\
  heading_error c = - atan (poly_deriv_sum c 0) /\
  build_state c v = [0; 0; 0; v; polyeval c 0; - atan (poly_deriv_sum c 0)].
Proof.
  intros H.
  destruct c as [|c0 [|c1 [|c2 [|c3 [|? ?]]]]]; try discriminate.
  assert (Hc : cross_track_error [c0; c1; c2; c3] = polyeval [c0; c1; c2; c3] 0)
    by (unfold cross_track_error; ring).
  assert (He : heading_error [c0; c1; c2; c3]
               = - atan (poly_deriv_sum [c0; c1; c2; c3] 0)).
  { rewrite poly_deriv_sum_cubic_at_zero. unfold heading_error, coeff; simpl.
    f_equal. f_equal. ring. }
  split; [exact Hc|].
  split; [apply polyeval_derivative|].
  split; [exact He|].
  unfold build_state. rewrite Hc, He. reflexivity.
Qed.

Lemma build_state_errors_witness :
  build_state [1; 2; 3; 4] 10 =
  [0; 0; 0; 10; polyeval [1; 2; 3; 4] 0;
   - atan (poly_deriv_sum [1; 2; 3; 4] 0)].
Proof.
  apply (proj2 (proj2 (proj2 (build_state_errors [1; 2; 3; 4] 10 eq_refl)))).
Defined.

(** The scenario of the specification: on the line of slope 1 through the
    origin the errors are 0 and [- atan 1]. *)
Example build_state_diagonal (v : R) :
  build_state [0; 1; 0; 0] v = [0; 0; 0; v; 0; - atan 1].
Proof.
  destruct (build_state_errors [0; 1; 0; 0] v eq_refl) as (_ & _ & _ & ->).
  rewrite poly_deriv_sum_cubic_at_zero, polyeval_at_zero. reflexivity.
Qed.

End Derivative.

(** ** Steering and throttle *)

Section Actuation.

Local Open Scope R_scope.

Lemma max_steer_divisor_nonzero : max_steer_divisor <> 0.
Proof. unfold max_steer_divisor. lra. Qed.

Lemma vector_at_nth (vars : list R) (i : nat) :
  (i < length vars)%nat -> vector_at vars i = Ok (nth i vars 0).
Proof.
  intros H. unfold vector_at.
  rewrite (nth_error_nth' vars 0 H). reflexivity.
Qed.

Lemma actuation_eq (vars : list R) :
  (8 <= length vars)%nat ->
  actuation vars = Ok (nth 6 vars 0 / - 0.436332, nth 7 vars 0).
Proof.
  intros H. unfold actuation.
  rewrite !vector_at_nth by lia. reflexivity.
Qed.

(** C4. For an optimizer output with entries 6 and 7, the steering
    command is entry 6 divided by -0.436332 and the throttle command is
    entry 7 as it is; entry 6 equal to -0.436332 gives steering 1. *)
Theorem actuation_divides_steering (vars : list R) :
  (8 <= length vars)%nat ->
  exists steer_value throttle_value,
    actuation vars = Ok (steer_value, throttle_value) /\
    steer_value = nth 6 vars 0 / - 0.436332 /\
    throttle_value = nth 7 vars 0 /\
    (nth 6 vars 0 = - 0.436332 -> steer_value = 1).
Proof.
  intros H. exists (nth 6 vars 0 / - 0.436332), (nth 7 vars 0).
  split; [exact (actuation_eq vars H)|].
  split; [reflexivity|]. split; [reflexivity|].
  intros ->. lra.
Qed.

Lemma actuation_divides_steering_witness :
  exists steer_value throttle_value,
    actuation sample_vars = Ok (steer_value, throttle_value) /\
    steer_value = nth 6 sample_vars 0 / - 0.436332 /\
    throttle_value = nth 7 sample_vars 0 /\
    (nth 6 sample_vars 0 = - 0.436332 -> steer_value = 1).
Proof.
  apply (actuation_divides_steering sample_vars). simpl. lia.
Defined.

Example actuation_sample : actuation sample_vars = Ok (1, 0.5).
Proof.
  rewrite actuation_eq by (simpl; lia). simpl. f_equal. f_equal. lra.
Qed.

End Actuation.

(** ** The coordinate transform *)

Section Transform.

Local Open Scope list_scope.
Local Open Scope R_scope.

Variables px py psi : R.

(** The code rotates by [- psi]; the formula of the specification is the
    same rotation written with [cos psi] and [sin psi]. *)
Lemma transform_point (x y : R) :
  mapToVehicleCoordinateTransform x y px py psi =
  to_vehicle_frame px py psi (x, y).
Proof.
  unfold mapToVehicleCoordinateTransform, to_vehicle_frame; simpl.
  rewrite cos_neg, sin_neg. f_equal; ring.
Qed.

(** The loop, started at index [length xpre] with [new_x], [new_y] filled
    so far, appends the images of the points that are left. *)
Lemma transform_loop_spec (xpost : list R) :
  forall (xpre ypre ypost new_x new_y : list R),
    length ypre = length xpre ->
    (length xpost <= length ypost)%nat ->
    transform_loop (length xpost) (length xpre)
      (xpre ++ xpost) (ypre ++ ypost) px py psi new_x new_y =
    Ok (new_x ++ map fst (frame_points px py psi xpost ypost),
        new_y ++ map snd (frame_points px py psi xpost ypost)).
Proof.
  induction xpost as [|a xpost IH];
    intros xpre ypre ypost new_x new_y Hpre Hle.
  - simpl. now rewrite !app_nil_r.
  - destruct ypost as [|b ypost]; [simpl in Hle; lia|].
    cbn [length transform_loop].
    rewrite nth_error_app2 by lia. rewrite Nat.sub_diag.
    rewrite nth_error_app2 by lia. rewrite Hpre, Nat.sub_diag.
    cbn [nth_error]. rewrite transform_point.
    cbn [to_vehicle_frame fst snd].
    replace (S (length xpre)) with (length (xpre ++ [a]))
      by (rewrite length_app; simpl; lia).
    replace (xpre ++ a :: xpost) with ((xpre ++ [a]) ++ xpost)
      by (rewrite <- app_assoc; reflexivity).
    replace (ypre ++ b :: ypost) with ((ypre ++ [b]) ++ ypost)
      by (rewrite <- app_assoc; reflexivity).
    rewrite IH.
    + unfold frame_points. cbn [combine map to_vehicle_frame fst snd].
      rewrite <- !app_assoc. reflexivity.
    + rewrite !length_app. simpl. lia.
    + simpl in Hle. lia.
Qed.

Lemma transform_points (xs ys : list R) :
  (length xs <= length ys)%nat ->
  mapToVehicleCoordinatesTransform xs ys px py psi =
  Ok (map fst (frame_points px py psi xs ys), map snd (frame_points px py psi xs ys)).
Proof.
  intros H. unfold mapToVehicleCoordinatesTransform.
  exact (transform_loop_spec xs [] [] ys [] [] eq_refl H).
Qed.

Lemma frame_points_length (xs ys : list R) :
  length xs = length ys -> length (frame_points px py psi xs ys) = length xs.
Proof.
  intros H. unfold frame_points.
  rewrite length_map, length_combine, <- H. apply Nat.min_id.
Qed.

Lemma frame_points_nth (xs ys : list R) (i : nat) :
  length xs = length ys -> (i < length xs)%nat ->
  nth i (frame_points px py psi xs ys) (0, 0) =
  to_vehicle_frame px py psi (nth i xs 0, nth i ys 0).
Proof.
  intros H Hi. unfold frame_points.
  rewrite (nth_indep _ (0, 0) (to_vehicle_frame px py psi (0, 0)))
    by (rewrite length_map, length_combine; lia).
  rewrite map_nth, combine_nth by exact H. reflexivity.
Qed.

End Transform.

Section TransformClaims.

Local Open Scope R_scope.

(** C2. One point [(x, y)] is sent to
    [(cos psi * (x - px) + sin psi * (y - py),
      - sin psi * (x - px) + cos psi * (y - py))], for every real [psi].
    A sequence of points (its x and its y coordinates, as many of each)
    is transformed point by point: the result has the same length, its
    [i]-th point is the image of the [i]-th point, and the empty sequence
    gives the empty sequence. *)
Theorem transform_formula (px py psi : R) (xs ys : list R) :
  length xs = length ys ->
  (forall x y,
      mapToVehicleCoordinateTransform x y px py psi =
      (cos psi * (x - px) + sin psi * (y - py),
       - sin psi * (x - px) + cos psi * (y - py))) /\
  mapToVehicleCoordinatesTransform [] [] px py psi = Ok ([], []) /\
  exists new_x new_y,
    mapToVehicleCoordinatesTransform xs ys px py psi = Ok (new_x, new_y) /\
    length new_x = length xs /\ length new_y = length xs /\
    forall i, (i < length xs)%nat ->
      (nth i new_x 0, nth i new_y 0) =
      (cos psi * (nth i xs 0 - px) + sin psi * (nth i ys 0 - py),
       - sin psi * (nth i xs 0 - px) + cos psi * (nth i ys 0 - py)).
Proof.
  intros H.
  split; [intros x y; apply transform_point|].
  split; [reflexivity|].
  exists (map fst (frame_points px py psi xs ys)),
         (map snd (frame_points px py psi xs ys)).
  split; [apply transform_points; lia|].
  rewrite !length_map, frame_points_length by exact H.
  split; [reflexivity|]. split; [reflexivity|].
  intros i Hi.
  set (pts := frame_points px py psi xs ys).
  replace (nth i (map fst pts) 0) with (fst (nth i pts (0, 0)))
    by (symmetry; exact (map_nth fst pts (0, 0) i)).
  replace (nth i (map snd pts) 0) with (snd (nth i pts (0, 0)))
    by (symmetry; exact (map_nth snd pts (0, 0) i)).
  subst pts. rewrite frame_points_nth by assumption. reflexivity.
Qed.

Lemma transform_formula_witness :
  exists new_x new_y,
    mapToVehicleCoordinatesTransform [1; 2] [3; 4] 5 6 7 = Ok (new_x, new_y) /\
    length new_x = 2%nat /\ length new_y = 2%nat /\
    forall i, (i < 2)%nat ->
      (nth i new_x 0, nth i new_y 0) =
      (cos 7 * (nth i [1; 2] 0 - 5) + sin 7 * (nth i [3; 4] 0 - 6),
       - sin 7 * (nth i [1; 2] 0 - 5) + cos 7 * (nth i [3; 4] 0 - 6)).
Proof.
  apply (proj2 (proj2 (transform_formula 5 6 7 [1; 2] [3; 4] eq_refl))).
Defined.

(** C7. The vehicle's own position is sent to [(0, 0)]. *)
Theorem transform_own_position (px py psi : R) :
  mapToVehicleCoordinateTransform px py px py psi = (0, 0).
Proof.
  unfold mapToVehicleCoordinateTransform. f_equal; ring.
Qed.

(** C8, as amended. A point sent to the vehicle frame of the pose
    [(px, py, psi)] comes back when the result is transformed with the
    heading [- psi] and the position [(ox, oy)], the image of the world
    origin in the vehicle frame. For a pose at the origin, [(ox, oy)] is
    [(0, 0)]: there the transform with [- psi] undoes the transform with
    [psi]. *)
Theorem transform_round_trip (x y px py psi : R) :
  let v := mapToVehicleCoordinateTransform x y px py psi in
  let o := mapToVehicleCoordinateTransform 0 0 px py psi in
  let r := mapToVehicleCoordinateTransform x y 0 0 psi in
  mapToVehicleCoordinateTransform (fst v) (snd v) (fst o) (snd o) (- psi)
  = (x, y) /\
  mapToVehicleCoordinateTransform (fst r) (snd r) 0 0 (- psi) = (x, y).
Proof.
  intros v o r. subst v o r.
  pose proof (sin2_cos2 psi) as P. unfold Rsqr in P.
  rewrite !transform_point. unfold to_vehicle_frame; simpl.
  rewrite cos_neg, sin_neg.
  set (C := cos psi) in *. set (S := sin psi) in *.
  split; f_equal; unit_circle P.
Qed.

(** C8 fails as it is stated: with the position kept and only the heading
    negated, the point [(1, 0)] seen from the pose [(1, 0, 0)] does not
    come back, it goes to [(-1, 0)]. *)
Lemma transform_round_trip_counterexample :
  let v := mapToVehicleCoordinateTransform 1 0 1 0 0 in
  mapToVehicleCoordinateTransform (fst v) (snd v) 1 0 (- 0) = (- 1, 0) /\
  mapToVehicleCoordinateTransform (fst v) (snd v) 1 0 (- 0) <> (1, 0).
Proof.
  intros v. subst v.
  assert (E : mapToVehicleCoordinateTransform
                (fst (mapToVehicleCoordinateTransform 1 0 1 0 0))
                (snd (mapToVehicleCoordinateTransform 1 0 1 0 0)) 1 0 (- 0)
              = (- 1, 0)).
  { rewrite !transform_point. unfold to_vehicle_frame; simpl.
    rewrite Ropp_0, cos_0, sin_0. f_equal; ring. }
  split; [exact E|].
  rewrite E. intros N. apply (f_equal fst) in N. simpl in N. lra.
Qed.

End TransformClaims.

(** ** [polyfit] *)

Section PolyfitProps.

Local Open Scope list_scope.
Local Open Scope R_scope.

Variable solve : list (list R) -> list R -> list R.

(** Row [j] of the design matrix holds the powers of [xvals(j)]. *)
Lemma design_row_powers (xj : R) (order : nat) (prev : R) :
  design_row xj order prev = map (fun i => prev * xj ^ i) (seq 1 order).
Proof.
  revert prev; induction order as [|k IH]; intros prev.
  - reflexivity.
  - cbn [design_row seq map]. f_equal; [ring|].
    rewrite IH, <- (seq_shift k 1), map_map.
    apply map_ext. intros i. simpl. ring.
Qed.

Lemma design_matrix_vandermonde (xvals : list R) (order : nat) :
  design_matrix xvals order =
  map (fun xj => map (fun i => xj ^ i) (seq 0 (S order))) xvals.
Proof.
  unfold design_matrix. apply map_ext. intros xj.
  cbn [seq map]. f_equal. rewrite design_row_powers.
  apply map_ext. intros i. ring.
Qed.

(** With fewer than four samples the second assertion of [polyfit] fails. *)
Lemma polyfit_short (xvals yvals : list R) :
  length xvals = length yvals -> (length xvals < 4)%nat ->
  polyfit solve xvals yvals 3 = Fail AssertionFailed.
Proof.
  intros E H. unfold polyfit, vec_size. rewrite <- E, Z.eqb_refl.
  cbn [negb].
  destruct (Z.leb_spec 3 (Z.of_nat (length xvals) - 1)); [lia|].
  reflexivity.
Qed.

Lemma polyfit_enough (xvals yvals : list R) :
  length xvals = length yvals -> (4 <= length xvals)%nat ->
  polyfit solve xvals yvals 3 = Ok (solve (design_matrix xvals 3) yvals).
Proof.
  intros E H. unfold polyfit, vec_size. rewrite <- E, Z.eqb_refl.
  cbn [negb].
  destruct (Z.leb_spec 3 (Z.of_nat (length xvals) - 1)); [|lia].
  reflexivity.
Qed.

End PolyfitProps.

(** ** The handler *)

Section HandlerProps.

Local Open Scope list_scope.

Variable env : Collaborators.

Lemma string_length_append (a b : string) :
  String.length (a ++ b)%string = (String.length a + String.length b)%nat.
Proof. induction a as [|c a IH]; simpl; [reflexivity | now rewrite IH]. Qed.

(** The test of line 107 on a frame that starts with [42] and goes on. *)
Lemma event_frame_guard (sdata : string) :
  prefix "42" sdata = true -> sdata <> "42"%string ->
  ((2 <? Str.size sdata)%Z && char_is sdata 0 "4" && char_is sdata 1 "2")
  = true.
Proof.
  intros P N. destruct (prefix_split _ _ P) as [rest ->].
  destruct rest as [|c rest]; [contradiction N; reflexivity|].
  unfold Str.size, char_is.
  cbn [append String.length String.get Ascii.eqb Bool.eqb andb].
  rewrite !andb_true_r. apply Z.ltb_lt. lia.
Qed.

Lemma contains_null_long (sdata : string) :
  Str.contains "null" sdata -> sdata <> "42"%string.
Proof.
  intros (pre & post & ->) E. apply (f_equal String.length) in E.
  rewrite !string_length_append in E. simpl in E. lia.
Qed.

Lemma hasData_nonempty_long (sdata : string) :
  hasData sdata <> EmptyString -> sdata <> "42"%string.
Proof. intros H ->. apply H. reflexivity. Qed.

Lemma is_empty_false (s : string) :
  s <> EmptyString -> is_empty s = false.
Proof. destruct s; [contradiction|reflexivity]. Qed.

(** The handler on a frame without data: one line of log, one reply. *)
Lemma onMessage_frame_no_data (sdata : string) :
  prefix "42" sdata = true -> sdata <> "42"%string ->
  hasData sdata = EmptyString ->
  onMessage_frame env sdata = ([Log sdata; Send manual_msg], Ok tt).
Proof.
  intros P N H. unfold onMessage_frame.
  rewrite (event_frame_guard sdata P N), H. reflexivity.
Qed.

(** The handler on a frame with data, up to the decoded event name. *)
Lemma onMessage_frame_decoded (sdata : string) (j : json env) (name : string) :
  prefix "42" sdata = true -> hasData sdata <> EmptyString ->
  json_parse env (hasData sdata) = Some j ->
  json_event env j = Some name ->
  onMessage_frame env sdata =
  bind (emit (Log sdata))
       (fun _ => if String.eqb name "telemetry" then telemetry_cycle env j
                 else ret tt).
Proof.
  intros P H Hj He. unfold onMessage_frame.
  rewrite (event_frame_guard sdata P (hasData_nonempty_long sdata H)).
  rewrite (is_empty_false _ H). cbn [negb].
  rewrite Hj. cbn [throwing]. unfold bind at 2. cbn [ret].
  rewrite He. cbn [throwing]. unfold bind at 2. cbn [ret].
  destruct (if String.eqb name "telemetry" then telemetry_cycle env j else ret tt)
    as [t r].
  reflexivity.
Qed.

Lemma substring_none (s : string) : substring 0 0 s = EmptyString.
Proof. destruct s; reflexivity. Qed.

(** Up to the first NUL, the C string is the buffer. *)
Lemma substring_c_string (data : string) (n : nat) :
  no_nul (substring 0 n data) = true ->
  substring 0 n (c_string data) = substring 0 n data.
Proof.
  revert n; induction data as [|c d IH]; intros n H; [reflexivity|].
  destruct n as [|n]; [now rewrite !substring_none|].
  cbn [substring no_nul] in H. apply andb_true_iff in H. destruct H as [Hc Hd].
  apply negb_true_iff in Hc. cbn [c_string]. rewrite Hc. cbn [substring].
  f_equal. exact (IH n Hd).
Qed.

(** C5, as amended. On a received frame (the first [length] characters of
    [data]) that holds no NUL character, starts with [42] and holds the
    [null] sentinel, the handler logs the frame and sends the
    manual-driving message [42["manual",{}]], and that is all it does: the
    optimizer is not called and no steering message is built. *)
Theorem no_data_frame_manual (data : string) (length : nat) :
  no_nul (substring 0 length data) = true ->
  prefix "42" (substring 0 length data) = true ->
  Str.contains "null" (substring 0 length data) ->
  onMessage env data length =
  ([Log (substring 0 length data);
    Send ("42[" ++ String "034" ("manual" ++ String "034" ",{}]"))%string], Ok tt) /\
  (forall state coeffs,
      ~ In (SolveCall state coeffs) (trace (onMessage env data length))) /\
  (forall msg, In (Send msg) (trace (onMessage env data length)) ->
               msg = ("42[" ++ String "034" ("manual" ++ String "034" ",{}]"))%string).
Proof.
  intros Z P C. unfold onMessage. rewrite (substring_c_string data length Z).
  set (sdata := substring 0 length data) in *.
  assert (E : onMessage_frame env sdata = ([Log sdata; Send manual_msg], Ok tt)).
  { apply onMessage_frame_no_data; [exact P| |].
    - exact (contains_null_long sdata C).
    - exact (hasData_null sdata C). }
  rewrite E. unfold trace; simpl. split; [reflexivity|]. split.
  - intros state coeffs [N | [N | []]]; discriminate.
  - intros msg [N | [N | []]]; [discriminate|]. injection N as <-. reflexivity.
Qed.

(** *** Laws of the handler monad *)

Lemma bind_ret {A B} (a : A) (k : A -> M B) : bind (ret a) k = k a.
Proof. unfold bind, ret. destruct (k a). reflexivity. Qed.

Lemma bind_lift_ok {A B} (a : A) (k : A -> M B) : bind (lift (Ok a)) k = k a.
Proof. exact (bind_ret a k). Qed.

Lemma bind_lift_fail {A B} (f : failure) (k : A -> M B) :
  bind (lift (Fail f)) k = ([], Fail f).
Proof. reflexivity. Qed.

Lemma bind_emit {B} (e : event) (k : unit -> M B) :
  bind (emit e) k = (e :: trace (k tt), result (k tt)).
Proof. unfold bind, emit, trace, result. destruct (k tt). reflexivity. Qed.

(** *** One telemetry cycle *)

Section Cycle.

Variables (j : json env) (ptsx ptsy : list R) (px py psi v : R).

Hypothesis Hptsx : json_numbers env j "ptsx" = Some ptsx.
Hypothesis Hptsy : json_numbers env j "ptsy" = Some ptsy.
Hypothesis Hx : json_number env j "x" = Some px.
Hypothesis Hy : json_number env j "y" = Some py.
Hypothesis Hpsi : json_number env j "psi" = Some psi.
Hypothesis Hv : json_number env j "speed" = Some v.
Hypothesis Hlen : length ptsx = length ptsy.

Lemma car_lengths :
  length (vehicle_xs px py psi ptsx ptsy) = length ptsx /\ length (vehicle_ys px py psi ptsx ptsy) = length ptsx.
Proof.
  unfold vehicle_xs, vehicle_ys.
  rewrite !length_map, frame_points_length by exact Hlen. split; reflexivity.
Qed.

(** Up to the fit, the cycle only decodes and transforms. *)
Lemma telemetry_cycle_to_fit :
  telemetry_cycle env j =
  bind (lift (polyfit (qr_solve env) (vehicle_xs px py psi ptsx ptsy) (vehicle_ys px py psi ptsx ptsy) 3))
       (fun coeffs =>
          let state := build_state coeffs v in
          bind (emit (SolveCall state coeffs)) (fun _ =>
          let '(vars, x_vars, y_vars) := mpc_Solve env state coeffs in
          bind (lift (actuation vars)) (fun st =>
          let '(steer_value, throttle_value) := st in
          let msgJson := {| steering_angle := steer_value;
                            throttle := throttle_value;
                            mpc_x := x_vars;
                            mpc_y := y_vars;
                            next_x := vehicle_xs px py psi ptsx ptsy;
                            next_y := vehicle_ys px py psi ptsx ptsy |} in
          let msg := steer_msg (json_dump env msgJson) in
          bind (emit (Log msg)) (fun _ =>
          bind (emit (Sleep 100)) (fun _ => emit (Send msg)))))).
Proof.
  unfold telemetry_cycle.
  rewrite Hptsx, Hptsy, Hx, Hy, Hpsi, Hv. cbn [throwing].
  rewrite !bind_ret.
  rewrite transform_points by lia.
  rewrite bind_lift_ok. reflexivity.
Qed.

Lemma telemetry_cycle_short :
  (length ptsx < 4)%nat ->
  telemetry_cycle env j = ([], Fail AssertionFailed).
Proof.
  intros H. rewrite telemetry_cycle_to_fit.
  destruct car_lengths as [Lx Ly].
  rewrite polyfit_short by lia. apply bind_lift_fail.
Qed.


End Cycle.

(** C6, as amended. On a frame that decodes to an event whose name is a
    string other than [telemetry], the handler logs the frame and
    returns: it sends nothing, neither a steering message nor the
    manual-driving message. *)
Theorem other_event_no_reply (sdata : string) (j : json env) (name : string) :
  prefix "42" sdata = true -> hasData sdata <> EmptyString ->
  json_parse env (hasData sdata) = Some j ->
  json_event env j = Some name ->
  name <> "telemetry"%string ->
  onMessage_frame env sdata = ([Log sdata], Ok tt).
Proof.
  intros P H Hj He N.
  rewrite (onMessage_frame_decoded sdata j name P H Hj He).
  apply String.eqb_neq in N. rewrite N. reflexivity.
Qed.

(** C1, as amended. On a telemetry message with fewer than four
    waypoints the fit does fail, and no steering or throttle is sent; but
    the failure is the assertion of [polyfit], which ends the process:
    the handler does not return, and no later frame is handled. *)
Theorem short_fit_aborts (sdata : string) (j : json env)
    (ptsx ptsy : list R) (px py psi v : R) (later : list string) :
  prefix "42" sdata = true -> hasData sdata <> EmptyString ->
  json_parse env (hasData sdata) = Some j ->
  json_event env j = Some "telemetry"%string ->
  json_numbers env j "ptsx" = Some ptsx ->
  json_numbers env j "ptsy" = Some ptsy ->
  json_number env j "x" = Some px ->
  json_number env j "y" = Some py ->
  json_number env j "psi" = Some psi ->
  json_number env j "speed" = Some v ->
  length ptsx = length ptsy ->
  (length ptsx < 4)%nat ->
  onMessage_frame env sdata = ([Log sdata], Fail AssertionFailed) /\
  serve env (sdata :: later) = ([Log sdata], Dead AssertionFailed).
Proof.
  intros P H Hj He Hptsx Hptsy Hx Hy Hpsi Hv Hlen Hshort.
  assert (E : onMessage_frame env sdata = ([Log sdata], Fail AssertionFailed)).
  { rewrite (onMessage_frame_decoded sdata j _ P H Hj He).
    cbn [String.eqb Ascii.eqb Bool.eqb].
    rewrite (telemetry_cycle_short j ptsx ptsy px py psi v
               Hptsx Hptsy Hx Hy Hpsi Hv Hlen Hshort).
    reflexivity. }
  split; [exact E|]. cbn [serve]. rewrite E. reflexivity.
Qed.


End HandlerProps.

Lemma no_data_frame_manual_witness :
  onMessage sample_env frame_null (String.length frame_null) =
  ([Log (substring 0 (String.length frame_null) frame_null);
    Send ("42[" ++ String "034" ("manual" ++ String "034" ",{}]"))%string], Ok tt).
Proof.
  apply (no_data_frame_manual sample_env frame_null (String.length frame_null)).
  - reflexivity.
  - reflexivity.
  - exists ("42[" ++ quoted "telemetry" ++ ",")%string, "]"%string. reflexivity.
Defined.

(** C5 fails as it is stated: the handler reads the received characters
    as a C string, which ends at the first NUL. The frame
    [42<NUL>["telemetry",null]] starts with [42] and holds the sentinel,
    but the handler sees [42] only, and sends nothing. *)
Lemma no_data_frame_counterexample :
  let data := ("42" ++ String "000" payload_null)%string in
  let length := String.length data in
  prefix "42" (substring 0 length data) = true /\
  Str.contains "null" (substring 0 length data) /\
  onMessage sample_env data length = ([Log "42"%string], Ok tt) /\
  sends (trace (onMessage sample_env data length)) = [].
Proof.
  intros data length. subst data length.
  split; [reflexivity|]. split.
  - exists ("42" ++ String "000" ("[" ++ quoted "telemetry" ++ ","))%string,
           "]"%string.
    reflexivity.
  - split; reflexivity.
Qed.

(** ** Runs on concrete frames *)

Lemma frame_steer_decodes :
  prefix "42" frame_steer = true /\
  hasData frame_steer <> EmptyString /\
  json_parse sample_env (hasData frame_steer)
  = Some {| sj_event := "steer"; sj_ptsx := []; sj_ptsy := [];
            sj_x := 0; sj_y := 0; sj_psi := 0; sj_speed := 0 |} /\
  "steer"%string <> "telemetry"%string.
Proof.
  split; [reflexivity|]. split; [rewrite hasData_frame_steer; discriminate|].
  split; [rewrite hasData_frame_steer; reflexivity | discriminate].
Qed.

Lemma other_event_no_reply_witness :
  onMessage_frame sample_env frame_steer = ([Log frame_steer], Ok tt).
Proof.
  apply (other_event_no_reply sample_env frame_steer
           {| sj_event := "steer"; sj_ptsx := []; sj_ptsy := [];
              sj_x := 0; sj_y := 0; sj_psi := 0; sj_speed := 0 |} "steer").
  - reflexivity.
  - vm_compute. discriminate.
  - reflexivity.
  - reflexivity.
  - discriminate.
Defined.

(** C6 fails as it is stated: the frame [42["steer",{}]] decodes to the
    event name [steer], which is not [telemetry], and the handler sends no
    manual-driving message for it (it sends nothing). *)
Lemma other_event_counterexample :
  json_event sample_env
    {| sj_event := "steer"; sj_ptsx := []; sj_ptsy := [];
       sj_x := 0; sj_y := 0; sj_psi := 0; sj_speed := 0 |} = Some "steer"%string /\
  trace (onMessage_frame sample_env frame_steer) = [Log frame_steer] /\
  ~ In (Send manual_msg) (trace (onMessage_frame sample_env frame_steer)).
Proof.
  destruct frame_steer_decodes as (P & H & Hj & N).
  assert (E : onMessage_frame sample_env frame_steer = ([Log frame_steer], Ok tt)).
  { rewrite (onMessage_frame_decoded sample_env frame_steer _ "steer" P H Hj eq_refl).
    reflexivity. }
  rewrite E. split; [reflexivity|]. split; [reflexivity|].
  intros [F | []]. discriminate.
Qed.

Lemma hasData_frame_short : hasData frame_short = payload_short.
Proof. vm_compute. reflexivity. Qed.

Lemma frame_short_decodes :
  prefix "42" frame_short = true /\
  hasData frame_short <> EmptyString /\
  json_parse sample_env (hasData frame_short)
  = Some (sample_telemetry [1; 2; 3]%R).
Proof.
  split; [reflexivity|]. rewrite hasData_frame_short.
  split; [discriminate | reflexivity].
Qed.

Lemma short_fit_aborts_witness :
  serve sample_env [frame_short; frame_null]
  = ([Log frame_short], Dead AssertionFailed).
Proof.
  apply (short_fit_aborts sample_env frame_short (sample_telemetry [1; 2; 3]%R)
           [1; 2; 3]%R [1; 2; 3]%R 0%R 0%R 0%R 10%R [frame_null]).
  - reflexivity.
  - vm_compute. discriminate.
  - reflexivity.
  - reflexivity.
  - reflexivity.
  - reflexivity.
  - reflexivity.
  - reflexivity.
  - reflexivity.
  - reflexivity.
  - reflexivity.
  - simpl. lia.
Defined.

(** C1 fails as it is stated: a telemetry frame with three waypoints ends
    the process at the assertion of [polyfit]; the no-data frame that
    follows it, which alone is answered with the manual-driving message, is
    never handled. *)
Lemma short_fit_counterexample :
  length (sj_ptsx (sample_telemetry [1; 2; 3]%R)) = 3%nat /\
  onMessage_frame sample_env frame_short
  = ([Log frame_short], Fail AssertionFailed) /\
  serve sample_env [frame_null]
  = ([Log frame_null; Send manual_msg], Listening) /\
  serve sample_env [frame_short; frame_null]
  = ([Log frame_short], Dead AssertionFailed) /\
  ~ In (Send manual_msg) (fst (serve sample_env [frame_short; frame_null])).
Proof.
  destruct frame_short_decodes as (P & H & Hj).
  assert (E : onMessage_frame sample_env frame_short
              = ([Log frame_short], Fail AssertionFailed)).
  { rewrite (onMessage_frame_decoded sample_env frame_short _ "telemetry"
               P H Hj eq_refl).
    cbn [String.eqb Ascii.eqb Bool.eqb].
    rewrite (telemetry_cycle_short sample_env (sample_telemetry [1; 2; 3]%R)
               [1; 2; 3]%R [1; 2; 3]%R 0%R 0%R 0%R 10%R
               eq_refl eq_refl eq_refl eq_refl eq_refl eq_refl eq_refl)
      by (simpl; lia).
    reflexivity. }
  assert (E0 : onMessage_frame sample_env frame_null
               = ([Log frame_null; Send manual_msg], Ok tt)).
  { apply onMessage_frame_no_data;
      [reflexivity | discriminate | vm_compute; reflexivity]. }
  split; [reflexivity|]. split; [exact E|].
  split; [cbn [serve]; rewrite E0; reflexivity|].
  assert (S2 : serve sample_env [frame_short; frame_null]
               = ([Log frame_short], Dead AssertionFailed))
    by (cbn [serve]; rewrite E; reflexivity).
  split; [exact S2|]. rewrite S2. intros [F | []]. discriminate.
Qed.

(** The scenario of the specification: five waypoints on the diagonal, the
    vehicle at the origin with heading 0. The waypoints are their own
    images, and the handler answers with one steering message. *)
Example identity_pose_unchanged :
  mapToVehicleCoordinatesTransform [1; 2; 3; 4; 5]%R [1; 2; 3; 4; 5]%R 0%R 0%R 0%R
  = Ok ([1; 2; 3; 4; 5]%R, [1; 2; 3; 4; 5]%R).
Proof.
  rewrite transform_points by reflexivity.
  unfold frame_points, to_vehicle_frame; simpl.
  rewrite cos_0, sin_0.
  repeat (f_equal; try lra).
Qed.


(** * Further properties of the code *)

(** ** More on strings *)

Lemma size_append (a b : string) : Str.size (a ++ b) = (Str.size a + Str.size b)%Z.
Proof. unfold Str.size. rewrite string_length_append. lia. Qed.

Lemma size_nonneg (s : string) : (0 <= Str.size s)%Z.
Proof. unfold Str.size. lia. Qed.

Lemma append_empty_r (s : string) : s ++ EmptyString = s.
Proof. induction s as [|c s IH]; simpl; [reflexivity | now rewrite IH]. Qed.

Lemma contains_trans (a b c : string) :
  Str.contains a b -> Str.contains b c -> Str.contains a c.
Proof.
  intros (p1 & q1 & ->) (p2 & q2 & ->).
  exists (p2 ++ p1), (q1 ++ q2). now rewrite !append_assoc.
Qed.

Lemma contains_tail (pat : string) (c : ascii) (s : string) :
  Str.contains pat (String c s) ->
  prefix pat (String c s) = true \/ Str.contains pat s.
Proof.
  intros (pre & post & E). destruct pre as [|d pre].
  - left. simpl in E. rewrite E. apply prefix_app.
  - right. simpl in E. injection E as _ ->. exists pre, post. reflexivity.
Qed.

Lemma find_from_found (pat s : string) (i k : Z) :
  Str.find_from pat s i = Some k -> Str.contains pat s.
Proof.
  revert i; induction s as [|c s IH]; intros i H; rewrite find_from_eq in H.
  - destruct (prefix pat EmptyString) eqn:P; [|discriminate].
    now apply prefix_contains.
  - destruct (prefix pat (String c s)) eqn:P.
    + now apply prefix_contains.
    + apply contains_cons. exact (IH _ H).
Qed.

Lemma find_absent (pat s : string) :
  ~ Str.contains pat s -> Str.find pat s = None.
Proof.
  intros N. unfold Str.find. destruct (Str.find_from pat s 0) eqn:E; [|reflexivity].
  exfalso. apply N. exact (find_from_found _ _ _ _ E).
Qed.

(** A search that fails shows that the pattern is not there. *)
Lemma absent_by_find (pat s : string) :
  Str.find pat s = None -> ~ Str.contains pat s.
Proof.
  intros H C. destruct (find_from_contains pat s 0 C) as [k F].
  unfold Str.find in H. rewrite F in H. discriminate.
Qed.

Lemma rfind_from_absent (pat s : string) (i : Z) :
  ~ Str.contains pat s -> Str.rfind_from pat s i = None.
Proof.
  intros N. destruct (Str.rfind_from pat s i) eqn:E; [|reflexivity].
  exfalso. apply N. exact (rfind_from_contains _ _ _ _ E).
Qed.

(** An occurrence in the second part is found through the first part. *)
Lemma rfind_from_app (pat a b : string) (i k : Z) :
  Str.rfind_from pat b (i + Str.size a) = Some k ->
  Str.rfind_from pat (a ++ b) i = Some k.
Proof.
  revert i; induction a as [|c a IH]; intros i H.
  - change (Str.size EmptyString) with 0%Z in H. rewrite Z.add_0_r in H. exact H.
  - change (String c a ++ b) with (String c (a ++ b)). cbn [Str.rfind_from].
    rewrite (IH (i + 1)%Z); [reflexivity|].
    replace (i + 1 + Str.size a)%Z with (i + Str.size (String c a))%Z; [exact H|].
    unfold Str.size. cbn [String.length]. lia.
Qed.

(** The last occurrence is here when there is none further on. *)
Lemma rfind_from_here (pat : string) (c : ascii) (s : string) (i : Z) :
  prefix pat (String c s) = true -> ~ Str.contains pat s ->
  Str.rfind_from pat (String c s) i = Some i.
Proof.
  intros P N. cbn [Str.rfind_from].
  rewrite (rfind_from_absent pat s (i + 1) N), P. reflexivity.
Qed.

Lemma no_bracket_cons (c : ascii) (s : string) :
  ~ Str.contains "[" (String c s) -> c <> "["%char /\ ~ Str.contains "[" s.
Proof.
  intros N. split.
  - intros ->. apply N. exists EmptyString, s. reflexivity.
  - intros C. apply N. now apply contains_cons.
Qed.

Lemma find_first_of_bracket_app (pre s : string) (i : Z) :
  ~ Str.contains "[" pre ->
  Str.find_first_of_from "[" (pre ++ s) i
  = Str.find_first_of_from "[" s (i + Str.size pre).
Proof.
  revert i; induction pre as [|c pre IH]; intros i N.
  - change (Str.size EmptyString) with 0%Z. now rewrite Z.add_0_r.
  - destruct (no_bracket_cons _ _ N) as [Nc Np].
    change (String c pre ++ s) with (String c (pre ++ s)).
    cbn [Str.find_first_of_from Str.mem_char].
    apply Ascii.eqb_neq in Nc. rewrite Nc, (IH _ Np).
    f_equal. unfold Str.size. cbn [String.length]. lia.
Qed.

(** Where [find_first_of] finds the first [[]: nothing before it is one. *)
Lemma find_first_of_bracket_split (s : string) (i k : Z) :
  Str.find_first_of_from "[" s i = Some k ->
  exists pre rest,
    s = pre ++ "[" ++ rest /\ ~ Str.contains "[" pre /\ k = (i + Str.size pre)%Z.
Proof.
  revert i; induction s as [|c s IH]; intros i H;
    cbn [Str.find_first_of_from Str.mem_char] in H; [discriminate|].
  destruct (Ascii.eqb c "[") eqn:E.
  - apply Ascii.eqb_eq in E; subst c. injection H as <-.
    exists EmptyString, s. split; [reflexivity|]. split.
    + intros (p & q & F). destruct p; discriminate.
    + change (Str.size EmptyString) with 0%Z. lia.
  - destruct (IH _ H) as (pre & rest & -> & N & ->).
    exists (String c pre), rest. split; [reflexivity|]. split.
    + intros C. destruct (contains_tail _ _ _ C) as [P | C']; [|exact (N C')].
      destruct (prefix_split _ _ P) as [q F]. simpl in F.
      injection F as -> _. discriminate.
    + unfold Str.size. cbn [String.length]. lia.
Qed.

Lemma substring_skip (pre s : string) (m : nat) :
  substring (String.length pre) m (pre ++ s) = substring 0 m s.
Proof. induction pre as [|c pre IH]; simpl; [reflexivity | exact IH]. Qed.

Lemma substring_take (body post : string) :
  substring 0 (String.length body) (body ++ post) = body.
Proof.
  induction body as [|c body IH]; simpl.
  - destruct post; reflexivity.
  - now rewrite IH.
Qed.

Lemma substring_all (s : string) (m : nat) :
  (String.length s <= m)%nat -> substring 0 m s = s.
Proof.
  revert m; induction s as [|c s IH]; intros m H.
  - destruct m; reflexivity.
  - destruct m; simpl in *; [lia|]. rewrite IH by lia. reflexivity.
Qed.

Lemma substring_is_prefix (s : string) (m : nat) :
  exists q, s = substring 0 m s ++ q.
Proof.
  revert m; induction s as [|d s IH]; intros m.
  - exists EmptyString. destruct m; reflexivity.
  - destruct m as [|m].
    + exists (String d s). reflexivity.
    + destruct (IH m) as [q E]. exists q. cbn [substring].
      simpl. now rewrite <- E.
Qed.

Lemma substring_contained (s : string) (n m : nat) :
  Str.contains (substring n m s) s.
Proof.
  revert n; induction s as [|c s IH]; intros n.
  - destruct n, m; exists EmptyString, EmptyString; reflexivity.
  - destruct n as [|n].
    + destruct (substring_is_prefix (String c s) m) as [q E].
      exists EmptyString, q. exact E.
    + cbn [substring]. apply contains_cons. apply IH.
Qed.

(** [substr] from the end of [pre] with the length of [body]. *)
Lemma substr_middle (pre body post : string) :
  Str.substr (pre ++ body ++ post) (Str.size pre) (Str.size body) = body.
Proof.
  unfold Str.substr. rewrite !size_append.
  rewrite Z.min_l by (pose proof (size_nonneg post); lia).
  unfold Str.size. rewrite !Nat2Z.id.
  rewrite substring_skip. apply substring_take.
Qed.

(** [substr] from the end of [pre] with a length past the end. *)
Lemma substr_rest (pre rest : string) (n : Z) :
  (Str.size rest <= n)%Z ->
  Str.substr (pre ++ rest) (Str.size pre) n = rest.
Proof.
  intros H. unfold Str.substr. rewrite size_append.
  rewrite Z.min_r by lia.
  replace (Str.size pre + Str.size rest - Str.size pre)%Z with (Str.size rest) by lia.
  unfold Str.size. rewrite !Nat2Z.id.
  rewrite substring_skip. apply substring_all. lia.
Qed.

(** ** More on [hasData] *)

Lemma no_closing_after_bracket (post : string) :
  ~ Str.contains "}]" post -> ~ Str.contains "}]" ("]" ++ post).
Proof.
  intros N C. destruct (contains_tail _ _ _ C) as [P | C']; [|exact (N C')].
  destruct (prefix_split _ _ P) as [q F]. discriminate.
Qed.

(** What [hasData] computes once the three searches are known. *)
Lemma hasData_found (pre rest : string) (b2 : Z) :
  ~ Str.contains "null" (pre ++ "[" ++ rest) ->
  ~ Str.contains "[" pre ->
  Str.rfind "}]" (pre ++ "[" ++ rest) = Some b2 ->
  hasData (pre ++ "[" ++ rest)
  = Str.substr (pre ++ "[" ++ rest) (Str.size pre)
      (size_t_wrap (b2 - Str.size pre + 2)).
Proof.
  intros Nn Nb Hr. unfold hasData.
  rewrite (find_absent _ _ Nn), Hr.
  unfold Str.find_first_of. rewrite (find_first_of_bracket_app _ _ _ Nb).
  reflexivity.
Qed.

(** The payload of a frame: [hasData] drops what is before the first [[]
    and what is after the last [}]], and keeps what is between them, both
    included. *)
Theorem hasData_extracts_payload (pre mid post : string) :
  let s := pre ++ "[" ++ mid ++ "}]" ++ post in
  ~ Str.contains "null" s ->
  ~ Str.contains "[" pre ->
  ~ Str.contains "}]" post ->
  (Str.size s < size_t_modulus)%Z ->
  hasData s = "[" ++ mid ++ "}]".
Proof.
  intros s Nn Nb Nc Hsize. subst s.
  assert (Hr : Str.rfind "}]" (pre ++ "[" ++ mid ++ "}]" ++ post)
               = Some (Str.size pre + 1 + Str.size mid)%Z).
  { unfold Str.rfind.
    replace (pre ++ "[" ++ mid ++ "}]" ++ post)
      with ((pre ++ "[" ++ mid) ++ "}]" ++ post)
      by (now rewrite !append_assoc).
    apply rfind_from_app.
    rewrite !size_append. change (Str.size "[") with 1%Z.
    replace (0 + (Str.size pre + (1 + Str.size mid)))%Z
      with (Str.size pre + 1 + Str.size mid)%Z by lia.
    apply (rfind_from_here "}]" "}" ("]" ++ post)).
    - exact (prefix_app "}]" post).
    - now apply no_closing_after_bracket. }
  rewrite (hasData_found pre (mid ++ "}]" ++ post) _ Nn Nb Hr).
  rewrite !size_append in Hsize.
  change (Str.size "[") with 1%Z in Hsize. change (Str.size "}]") with 2%Z in Hsize.
  pose proof (size_nonneg pre). pose proof (size_nonneg mid).
  pose proof (size_nonneg post).
  replace (size_t_wrap (Str.size pre + 1 + Str.size mid - Str.size pre + 2))
    with (Str.size ("[" ++ mid ++ "}]")).
  - replace (pre ++ "[" ++ mid ++ "}]" ++ post)
      with (pre ++ ("[" ++ mid ++ "}]") ++ post)
      by (now rewrite !append_assoc).
    apply substr_middle.
  - rewrite !size_append. change (Str.size "[") with 1%Z.
    change (Str.size "}]") with 2%Z.
    unfold size_t_wrap. rewrite Z.mod_small; lia.
Qed.

Lemma hasData_extracts_payload_witness :
  hasData ("42" ++ "[" ++ "{" ++ "}]" ++ "xyz") = "[" ++ "{" ++ "}]".
Proof.
  apply (hasData_extracts_payload "42" "{" "xyz").
  - apply absent_by_find. vm_compute. reflexivity.
  - apply absent_by_find. vm_compute. reflexivity.
  - apply absent_by_find. vm_compute. reflexivity.
  - vm_compute. reflexivity.
Defined.

Lemma empty_lacks_null : ~ Str.contains "null" EmptyString.
Proof. apply absent_by_find. reflexivity. Qed.

(** Whatever the frame, what [hasData] returns is a contiguous piece of the
    frame, and it never holds [null]. *)
Theorem hasData_piece_without_null (s : string) :
  Str.contains (hasData s) s /\ ~ Str.contains "null" (hasData s).
Proof.
  assert (E0 : Str.contains EmptyString s) by (exists EmptyString, s; reflexivity).
  unfold hasData. destruct (Str.find "null" s) eqn:F.
  - split; [exact E0 | exact empty_lacks_null].
  - pose proof (absent_by_find _ _ F) as N.
    destruct (Str.find_first_of "[" s) as [b1|];
      [|split; [exact E0 | exact empty_lacks_null]].
    destruct (Str.rfind "}]" s) as [b2|];
      [|split; [exact E0 | exact empty_lacks_null]].
    assert (C : Str.contains (Str.substr s b1 (size_t_wrap (b2 - b1 + 2))) s)
      by apply substring_contained.
    split; [exact C|]. intros C'. apply N. exact (contains_trans _ _ _ C' C).
Qed.

(** A result that is not empty starts at the first [[] of the frame and
    goes on from there without a gap: the frame is [pre], then the result
    ([[] and [tail]), then [post], with no [[] in [pre]. *)
Theorem hasData_starts_with_bracket (s : string) :
  hasData s <> EmptyString ->
  exists pre tail post,
    s = pre ++ "[" ++ tail ++ post /\ ~ Str.contains "[" pre /\
    hasData s = "[" ++ tail.
Proof.
  unfold hasData. destruct (Str.find "null" s); [contradiction|].
  destruct (Str.find_first_of "[" s) as [b1|] eqn:F1; [|contradiction].
  destruct (Str.rfind "}]" s) as [b2|]; [|contradiction].
  destruct (find_first_of_bracket_split _ _ _ F1) as (pre & rest & -> & N & ->).
  intros H. exists pre.
  unfold Str.substr in *. rewrite Z.add_0_l in *.
  unfold Str.size at 1 in H. unfold Str.size at 1.
  rewrite Nat2Z.id, substring_skip in *.
  destruct (Z.to_nat _) as [|m].
  - exfalso. apply H. reflexivity.
  - destruct (substring_is_prefix rest m) as [post E].
    exists (substring 0 m rest), post.
    split; [now rewrite <- E|]. split; [exact N | reflexivity].
Qed.

Lemma hasData_starts_with_bracket_witness :
  exists pre tail post,
    frame_steer = pre ++ "[" ++ tail ++ post /\ ~ Str.contains "[" pre /\
    hasData frame_steer = "[" ++ tail.
Proof.
  apply (hasData_starts_with_bracket frame_steer).
  vm_compute. discriminate.
Defined.

Lemma size_t_wrap_neg (m : Z) :
  (0 < m < size_t_modulus)%Z -> size_t_wrap (- m) = (size_t_modulus - m)%Z.
Proof.
  intros H. unfold size_t_wrap.
  replace (- m)%Z with (size_t_modulus - m + (-1) * size_t_modulus)%Z by lia.
  rewrite Z_mod_plus_full. apply Z.mod_small. lia.
Qed.

(** When the last [}]] of the frame is before its first [[], the length
    [b2 - b1 + 2] is not positive: for [}]] right before [[] it is 0 and the
    result is empty; otherwise it wraps around, and the result is all of the
    frame from the first [[] on, which does not end in [}]]. *)
Theorem hasData_closing_before_opening (pre mid post : string) :
  let s := pre ++ "}]" ++ mid ++ "[" ++ post in
  ~ Str.contains "null" s ->
  ~ Str.contains "[" (pre ++ "}]" ++ mid) ->
  ~ Str.contains "}]" (mid ++ "[" ++ post) ->
  (Str.size s < size_t_modulus)%Z ->
  hasData s = match mid with
              | EmptyString => EmptyString
              | String _ _ => "[" ++ post
              end.
Proof.
  intros s Nn Nb Nc Hsize. subst s.
  assert (Hr : Str.rfind "}]" (pre ++ "}]" ++ mid ++ "[" ++ post)
               = Some (Str.size pre)).
  { unfold Str.rfind. apply rfind_from_app. rewrite Z.add_0_l.
    apply (rfind_from_here "}]" "}" ("]" ++ mid ++ "[" ++ post)).
    - exact (prefix_app "}]" (mid ++ "[" ++ post)).
    - now apply no_closing_after_bracket. }
  assert (A : pre ++ "}]" ++ mid ++ "[" ++ post
              = (pre ++ "}]" ++ mid) ++ "[" ++ post)
    by (now rewrite !append_assoc).
  rewrite A in Nn, Hr, Hsize |- *.
  rewrite (hasData_found _ _ _ Nn Nb Hr).
  rewrite !size_append in Hsize. rewrite !size_append.
  change (Str.size "[") with 1%Z in Hsize. change (Str.size "}]") with 2%Z in *.
  pose proof (size_nonneg pre). pose proof (size_nonneg post).
  replace (Str.size pre - (Str.size pre + (2 + Str.size mid)) + 2)%Z
    with (- Str.size mid)%Z by lia.
  replace (Str.size pre + (2 + Str.size mid))%Z
    with (Str.size (pre ++ "}]" ++ mid))
    by (rewrite !size_append; reflexivity).
  destruct mid as [|c mid].
  - change (size_t_wrap (- Str.size EmptyString)) with (Str.size EmptyString).
    exact (substr_middle (pre ++ "}]" ++ EmptyString) EmptyString ("[" ++ post)).
  - assert (Hm : (0 < Str.size (String c mid))%Z)
      by (unfold Str.size; cbn [String.length]; lia).
    rewrite size_t_wrap_neg by lia.
    apply substr_rest. rewrite size_append. change (Str.size "[") with 1%Z. lia.
Qed.

Lemma hasData_closing_before_opening_witness :
  hasData ("}]" ++ "x" ++ "[" ++ "abc") = "[" ++ "abc".
Proof.
  apply (hasData_closing_before_opening EmptyString "x" "abc").
  - apply absent_by_find. vm_compute. reflexivity.
  - apply absent_by_find. vm_compute. reflexivity.
  - apply absent_by_find. vm_compute. reflexivity.
  - vm_compute. reflexivity.
Defined.

(** ** Degrees and radians *)

Section MoreNumbers.

Local Open Scope list_scope.
Local Open Scope R_scope.

(** [deg2rad] and [rad2deg] undo each other, and 180 degrees are [pi]. *)
Theorem deg_rad_round_trip (x : R) :
  rad2deg (deg2rad x) = x /\ deg2rad (rad2deg x) = x /\ deg2rad 180 = pi.
Proof.
  unfold rad2deg, deg2rad, pi. pose proof PI_neq0 as P.
  repeat split; field; exact P.
Qed.

(** ** More on [polyeval] *)

Lemma polyeval_loop_acc (c : list R) (x : R) (i : nat) (r : R) :
  polyeval_loop c x i r = r + polyeval_loop c x i 0.
Proof.
  revert i r; induction c as [|a c IH]; intros i r.
  - rewrite !polyeval_loop_nil. ring.
  - rewrite !polyeval_loop_cons.
    rewrite (IH (S i) (r + a * x ^ i)), (IH (S i) (0 + a * x ^ i)). ring.
Qed.

Lemma polyeval_loop_zero (c : list R) (i : nat) (r : R) :
  polyeval_loop c 0 (S i) r = r.
Proof.
  revert i r; induction c as [|a c IH]; intros i r.
  - reflexivity.
  - rewrite polyeval_loop_cons, IH. simpl. ring.
Qed.

(** At [x = 0] only the first coefficient counts ([pow(0, 0)] is 1): the
    value is the first coefficient, and 0 for the empty vector. *)
Theorem polyeval_at_origin (c : list R) : polyeval c 0 = coeff c 0.
Proof.
  rewrite polyeval_start. unfold coeff. destruct c as [|a c].
  - reflexivity.
  - rewrite polyeval_loop_cons, polyeval_loop_zero. simpl. ring.
Qed.

(** Shifting the loop to start one index later factors one [x] out. *)
Lemma polyeval_loop_shift (c : list R) (x : R) (i : nat) :
  polyeval_loop c x (S i) 0 = x * polyeval_loop c x i 0.
Proof.
  revert i; induction c as [|a c IH]; intros i.
  - rewrite !polyeval_loop_nil. ring.
  - rewrite !polyeval_loop_cons.
    rewrite (polyeval_loop_acc c x (S (S i))), (polyeval_loop_acc c x (S i)).
    rewrite IH. simpl. ring.
Qed.

(** Over the reals, the term-by-term loop and Horner's scheme agree. *)
Theorem polyeval_horner (c : list R) (x : R) : polyeval c x = horner c x.
Proof.
  rewrite polyeval_start. induction c as [|a c IH].
  - reflexivity.
  - rewrite polyeval_loop_cons. cbn [horner].
    rewrite polyeval_loop_acc, polyeval_loop_shift, IH. simpl. ring.
Qed.

Lemma polyeval_loop_scale (k : R) (c : list R) (x : R) (i : nat) (r : R) :
  polyeval_loop (vec_scale k c) x i (k * r) = k * polyeval_loop c x i r.
Proof.
  revert i r; induction c as [|a c IH]; intros i r.
  - reflexivity.
  - unfold vec_scale. cbn [map]. fold (vec_scale k c).
    rewrite !polyeval_loop_cons. rewrite <- IH. f_equal. ring.
Qed.

(** Scaling every coefficient scales the value. *)
Theorem polyeval_scale (k : R) (c : list R) (x : R) :
  polyeval (vec_scale k c) x = k * polyeval c x.
Proof.
  rewrite !polyeval_start. rewrite <- polyeval_loop_scale. f_equal. ring.
Qed.

(** Coefficients equal to 0 at the end of the vector change nothing. *)
Theorem polyeval_trailing_zeros (c : list R) (n : nat) (x : R) :
  polyeval (c ++ repeat 0 n) x = polyeval c x.
Proof.
  induction n as [|n IH].
  - now rewrite app_nil_r.
  - replace (c ++ repeat 0 (S n)) with ((c ++ repeat 0 n) ++ [0]).
    + rewrite polyeval_snoc, IH. ring.
    + rewrite <- app_assoc. f_equal.
      change [0] with (repeat 0 1). rewrite <- repeat_app.
      f_equal. lia.
Qed.

(** ** More on [polyfit] *)

Lemma design_row_length (xj : R) (order : nat) (prev : R) :
  length (design_row xj order prev) = order.
Proof.
  revert prev; induction order as [|k IH]; intros prev; simpl.
  - reflexivity.
  - now rewrite IH.
Qed.

(** The matrix built by the two loops of [polyfit] has one row per sample
    and [order + 1] columns, and its entry [(j, i)] is [xvals(j) ^ i]. *)
Theorem design_matrix_shape (xvals : list R) (order : nat) :
  length (design_matrix xvals order) = length xvals /\
  (forall row, In row (design_matrix xvals order) -> length row = S order) /\
  (forall j i, (j < length xvals)%nat -> (i <= order)%nat ->
     nth i (nth j (design_matrix xvals order) []) 0 = nth j xvals 0 ^ i).
Proof.
  split; [unfold design_matrix; apply length_map|]. split.
  - unfold design_matrix. intros row H. apply in_map_iff in H.
    destruct H as (xj & <- & _). simpl. now rewrite design_row_length.
  - intros j i Hj Hi. rewrite design_matrix_vandermonde.
    rewrite (nth_indep _ [] ((fun xj => map (fun i => xj ^ i) (seq 0 (S order))) 0))
      by (now rewrite length_map).
    rewrite (map_nth (fun xj => map (fun i => xj ^ i) (seq 0 (S order)))).
    rewrite (nth_indep _ 0 ((fun i => nth j xvals 0 ^ i) 0%nat))
      by (rewrite length_map, length_seq; lia).
    rewrite (map_nth (fun i => nth j xvals 0 ^ i)).
    rewrite seq_nth by lia. reflexivity.
Qed.

Lemma design_matrix_shape_witness :
  nth 2 (nth 1 (design_matrix [1; 2; 3; 4] 3) []) 0 = nth 1 [1; 2; 3; 4] 0 ^ 2.
Proof.
  apply (proj2 (proj2 (design_matrix_shape [1; 2; 3; 4] 3))); simpl; lia.
Defined.

(** [polyfit] returns exactly when the two vectors have one size and
    [1 <= order <= size - 1]; then it returns what the QR solve gives for
    the design matrix. In every other case it stops at an assertion: so it
    does for an empty input, for [order = 0], and for as many samples as
    the order. *)
Theorem polyfit_precondition (solve : list (list R) -> list R -> list R)
    (xvals yvals : list R) (order : Z) :
  (length xvals = length yvals /\ (1 <= order <= vec_size xvals - 1)%Z ->
   polyfit solve xvals yvals order
   = Ok (solve (design_matrix xvals (Z.to_nat order)) yvals)) /\
  (~ (length xvals = length yvals /\ (1 <= order <= vec_size xvals - 1)%Z) ->
   polyfit solve xvals yvals order = Fail AssertionFailed).
Proof.
  unfold polyfit, vec_size. split.
  - intros [E H]. rewrite <- E, Z.eqb_refl. cbn [negb].
    destruct (Z.leb_spec 1 order); [|lia].
    destruct (Z.leb_spec order (Z.of_nat (length xvals) - 1)); [|lia].
    reflexivity.
  - intros N.
    destruct (Z.eqb_spec (Z.of_nat (length xvals)) (Z.of_nat (length yvals)));
      cbn [negb]; [|reflexivity].
    destruct (Z.leb_spec 1 order); [|reflexivity].
    destruct (Z.leb_spec order (Z.of_nat (length xvals) - 1)); [|reflexivity].
    exfalso. apply N. split; lia.
Qed.

Lemma polyfit_precondition_witness :
  polyfit (qr_solve sample_env) [1; 2; 3; 4] [1; 2; 3; 4] 3
  = Ok (qr_solve sample_env (design_matrix [1; 2; 3; 4] (Z.to_nat 3)) [1; 2; 3; 4]) /\
  polyfit (qr_solve sample_env) [] [] 1 = Fail AssertionFailed.
Proof.
  split.
  - apply (proj1 (polyfit_precondition (qr_solve sample_env)
                    [1; 2; 3; 4] [1; 2; 3; 4] 3)).
    split; [reflexivity | unfold vec_size; simpl; lia].
  - apply (proj2 (polyfit_precondition (qr_solve sample_env) [] [] 1)).
    intros [_ H]. unfold vec_size in H. simpl in H. lia.
Defined.

(** ** More on the state and the commands *)

(** The state always has six entries, the first three are 0, and the
    heading error lies strictly between [- PI / 2] and [PI / 2]. *)
Theorem build_state_range (c : list R) (v : R) :
  length (build_state c v) = 6%nat /\
  firstn 4 (build_state c v) = [0; 0; 0; v] /\
  - PI / 2 < heading_error c < PI / 2.
Proof.
  split; [reflexivity|]. split; [reflexivity|].
  unfold heading_error.
  destruct (atan_bound (coeff c 1 + 2 * coeff c 2 * 0 + 3 * coeff c 3 * 0 ^ 2)).
  lra.
Qed.

(** The steering command has the opposite sign of the optimizer's steering
    value, and it lies in [[-1, 1]] exactly when that value lies within
    0.436332 of 0. *)
Theorem actuation_steering_range (vars : list R) (steer t : R) :
  actuation vars = Ok (steer, t) ->
  (-1 <= steer <= 1 <-> - 0.436332 <= nth 6 vars 0 <= 0.436332) /\
  (0 < nth 6 vars 0 -> steer < 0) /\
  (nth 6 vars 0 < 0 -> 0 < steer).
Proof.
  unfold actuation, vector_at, bind_outcome. intros H.
  destruct (nth_error vars 6) as [v6|] eqn:E6; [|discriminate].
  destruct (nth_error vars 7) as [v7|] eqn:E7; [|discriminate].
  injection H as <- <-.
  rewrite (nth_error_nth vars 6 0 E6). unfold max_steer_divisor.
  assert (S : v6 / - 0.436332 * 0.436332 = - v6) by lra.
  split; [split; intros B; lra|]. split; intros B; lra.
Qed.

Lemma actuation_steering_range_witness :
  -1 <= 1 <= 1 <-> - 0.436332 <= nth 6 sample_vars 0 <= 0.436332.
Proof.
  apply (actuation_steering_range sample_vars 1 0.5).
  unfold actuation, vector_at, bind_outcome, sample_vars, max_steer_divisor.
  simpl. f_equal. f_equal. lra.
Defined.

End MoreNumbers.

(** ** More on the coordinate transform *)

Section MoreTransform.

Local Open Scope list_scope.
Local Open Scope R_scope.

(** The transform keeps distances: between the images of two points, and
    from the origin of the vehicle frame to the image of a point, which is
    as far as the vehicle is from the point. *)
Theorem transform_isometry (px py psi x1 y1 x2 y2 : R) :
  dist2 (mapToVehicleCoordinateTransform x1 y1 px py psi)
        (mapToVehicleCoordinateTransform x2 y2 px py psi)
  = dist2 (x1, y1) (x2, y2) /\
  dist2 (mapToVehicleCoordinateTransform x1 y1 px py psi) (0, 0)
  = dist2 (x1, y1) (px, py).
Proof.
  pose proof (sin2_cos2 psi) as P. unfold Rsqr in P.
  rewrite !transform_point. unfold to_vehicle_frame, dist2; simpl.
  set (C := cos psi) in *. set (S := sin psi) in *.
  split.
  - replace ((x1 - x2) * (x1 - x2) + (y1 - y2) * (y1 - y2))
      with ((S * S + C * C) * ((x1 - x2) * (x1 - x2) + (y1 - y2) * (y1 - y2)))
      by (rewrite P; ring).
    ring.
  - replace ((x1 - px) * (x1 - px) + (y1 - py) * (y1 - py))
      with ((S * S + C * C) * ((x1 - px) * (x1 - px) + (y1 - py) * (y1 - py)))
      by (rewrite P; ring).
    ring.
Qed.

(** The world coordinates are recovered from the vehicle coordinates by
    the rotation by [psi] followed by the translation by [(px, py)]. *)
Theorem transform_inverse (px py psi x y : R) :
  let v := mapToVehicleCoordinateTransform x y px py psi in
  px + (cos psi * fst v - sin psi * snd v) = x /\
  py + (sin psi * fst v + cos psi * snd v) = y.
Proof.
  intros v. subst v.
  pose proof (sin2_cos2 psi) as P. unfold Rsqr in P.
  rewrite transform_point. unfold to_vehicle_frame; simpl.
  set (C := cos psi) in *. set (S := sin psi) in *.
  split.
  - transitivity (px + (S * S + C * C) * (x - px)); [ring | rewrite P; ring].
  - transitivity (py + (S * S + C * C) * (y - py)); [ring | rewrite P; ring].
Qed.

(** A full turn more or less of heading changes nothing. *)
Theorem transform_heading_period (px py psi x y : R) (k : nat) :
  mapToVehicleCoordinateTransform x y px py (psi + 2 * INR k * PI)
  = mapToVehicleCoordinateTransform x y px py psi /\
  mapToVehicleCoordinateTransform x y px py (psi - 2 * INR k * PI)
  = mapToVehicleCoordinateTransform x y px py psi.
Proof.
  rewrite !transform_point. unfold to_vehicle_frame; simpl.
  rewrite cos_period, sin_period.
  replace (cos (psi - 2 * INR k * PI)) with (cos psi)
    by (rewrite <- (cos_period (psi - 2 * INR k * PI) k); f_equal; ring).
  replace (sin (psi - 2 * INR k * PI)) with (sin psi)
    by (rewrite <- (sin_period (psi - 2 * INR k * PI) k); f_equal; ring).
  split; reflexivity.
Qed.

Lemma frame_points_identity (xs ys : list R) :
  length xs = length ys ->
  map fst (frame_points 0 0 0 xs ys) = xs /\
  map snd (frame_points 0 0 0 xs ys) = ys.
Proof.
  unfold frame_points, to_vehicle_frame.
  revert ys; induction xs as [|a xs IH]; intros [|b ys] H;
    simpl in *; try discriminate.
  - split; reflexivity.
  - destruct (IH ys) as [Ex Ey]; [congruence|].
    rewrite Ex, Ey, cos_0, sin_0. split; f_equal; ring.
Qed.

(** For the pose [(0, 0, 0)] the vehicle frame is the world frame: every
    point, and every sequence of points, is returned unchanged. *)
Theorem transform_identity_pose (x y : R) (xs ys : list R) :
  length xs = length ys ->
  mapToVehicleCoordinateTransform x y 0 0 0 = (x, y) /\
  mapToVehicleCoordinatesTransform xs ys 0 0 0 = Ok (xs, ys).
Proof.
  intros H. split.
  - rewrite transform_point. unfold to_vehicle_frame; simpl.
    rewrite cos_0, sin_0. f_equal; ring.
  - rewrite transform_points by lia.
    destruct (frame_points_identity xs ys H) as [-> ->]. reflexivity.
Qed.

Lemma transform_identity_pose_witness :
  mapToVehicleCoordinatesTransform [1; 2; 3] [4; 5; 6] 0 0 0
  = Ok ([1; 2; 3], [4; 5; 6]).
Proof.
  apply (proj2 (transform_identity_pose 0 0 [1; 2; 3] [4; 5; 6] eq_refl)).
Defined.

(** With fewer [y] than [x], the loop reads [y[i]] past the end. *)
Lemma transform_loop_short (px py psi : R) (xpost : list R) :
  forall (xpre ypre ypost new_x new_y : list R),
    length ypre = length xpre ->
    (length ypost < length xpost)%nat ->
    transform_loop (length xpost) (length xpre)
      (xpre ++ xpost) (ypre ++ ypost) px py psi new_x new_y
    = Fail OutOfRange.
Proof.
  induction xpost as [|a xpost IH];
    intros xpre ypre ypost new_x new_y Hpre Hlt; [simpl in Hlt; lia|].
  cbn [length transform_loop].
  rewrite nth_error_app2 by lia. rewrite Nat.sub_diag. cbn [nth_error].
  destruct ypost as [|b ypost].
  - rewrite app_nil_r.
    assert (N : nth_error ypre (length xpre) = None)
      by (apply nth_error_None; lia).
    rewrite N. reflexivity.
  - rewrite nth_error_app2 by lia. rewrite Hpre, Nat.sub_diag.
    cbn [nth_error].
    destruct (mapToVehicleCoordinateTransform a b px py psi) as [nx ny].
    replace (S (length xpre)) with (length (xpre ++ [a]))
      by (rewrite length_app; simpl; lia).
    replace (xpre ++ a :: xpost) with ((xpre ++ [a]) ++ xpost)
      by (rewrite <- app_assoc; reflexivity).
    replace (ypre ++ b :: ypost) with ((ypre ++ [b]) ++ ypost)
      by (rewrite <- app_assoc; reflexivity).
    apply IH.
    + rewrite !length_app. simpl. lia.
    + simpl in Hlt. lia.
Qed.

Lemma transform_short_y (px py psi : R) (xs ys : list R) :
  (length ys < length xs)%nat ->
  mapToVehicleCoordinatesTransform xs ys px py psi = Fail OutOfRange.
Proof.
  intros H. unfold mapToVehicleCoordinatesTransform.
  exact (transform_loop_short px py psi xs [] [] ys [] [] eq_refl H).
Qed.

(** With at least as many [y] as [x], the sequence transform returns two
    vectors that have the size of [x] both, and the [y] beyond the size of
    [x] are not looked at. *)
Theorem transform_sizes (px py psi : R) (xs ys : list R) :
  (length xs <= length ys)%nat ->
  exists new_x new_y,
    mapToVehicleCoordinatesTransform xs ys px py psi = Ok (new_x, new_y) /\
    length new_x = length xs /\ length new_y = length xs /\
    mapToVehicleCoordinatesTransform xs (firstn (length xs) ys) px py psi
    = Ok (new_x, new_y).
Proof.
  intros H.
  exists (map fst (frame_points px py psi xs ys)),
         (map snd (frame_points px py psi xs ys)).
  split; [apply transform_points; exact H|].
  unfold frame_points. rewrite !length_map, length_combine.
  split; [lia|]. split; [lia|].
  rewrite transform_points by (rewrite length_firstn; lia).
  unfold frame_points. rewrite <- combine_firstn_l. reflexivity.
Qed.

Lemma transform_sizes_witness :
  exists new_x new_y,
    mapToVehicleCoordinatesTransform [1; 2] [3; 4; 5] 0 0 0 = Ok (new_x, new_y) /\
    length new_x = length [1; 2] /\ length new_y = length [1; 2] /\
    mapToVehicleCoordinatesTransform [1; 2] (firstn (length [1; 2]) [3; 4; 5]) 0 0 0
    = Ok (new_x, new_y).
Proof.
  apply (transform_sizes 0 0 0 [1; 2] [3; 4; 5]). simpl. lia.
Defined.

End MoreTransform.

(** ** More on the handler *)

Section MoreHandler.

Local Open Scope list_scope.

Variable env : Collaborators.

(** The test of line 107 holds only for frames of more than two characters
    that start with [42]. *)
Lemma event_frame_guard_inv (sdata : string) :
  ((2 <? Str.size sdata)%Z && char_is sdata 0 "4" && char_is sdata 1 "2") = true ->
  prefix "42" sdata = true /\ (2 < String.length sdata)%nat.
Proof.
  intros G. apply andb_true_iff in G. destruct G as [G G2].
  apply andb_true_iff in G. destruct G as [G0 G1].
  apply Z.ltb_lt in G0. unfold Str.size in G0.
  destruct sdata as [|a [|b rest]]; cbn [String.length] in G0; try lia.
  unfold char_is in G1, G2. cbn [String.get] in G1, G2.
  apply Ascii.eqb_eq in G1, G2. subst a b.
  split; [exact (prefix_app "42" rest) | cbn [String.length]; lia].
Qed.

(** Frames that are not events (no [42] in front, or nothing after it) are
    logged and left unanswered. *)
Theorem non_event_frame_ignored (sdata : string) :
  prefix "42" sdata = false \/ (String.length sdata <= 2)%nat ->
  onMessage_frame env sdata = ([Log sdata], Ok tt).
Proof.
  intros H. unfold onMessage_frame.
  destruct ((2 <? Str.size sdata)%Z && char_is sdata 0 "4" && char_is sdata 1 "2")
    eqn:G; [|reflexivity].
  destruct (event_frame_guard_inv sdata G) as [P L].
  destruct H as [H | H]; [congruence | lia].
Qed.

Lemma c_string_no_nul (data : string) :
  no_nul data = true -> c_string data = data.
Proof.
  induction data as [|c d IH]; intros H; [reflexivity|].
  cbn [no_nul] in H. apply andb_true_iff in H. destruct H as [Hc Hd].
  apply negb_true_iff in Hc. cbn [c_string]. rewrite Hc, (IH Hd). reflexivity.
Qed.

Lemma c_string_cut (data rest : string) :
  no_nul data = true -> c_string (data ++ String "000" rest) = data.
Proof.
  induction data as [|c d IH]; intros H; [reflexivity|].
  cbn [no_nul] in H. apply andb_true_iff in H. destruct H as [Hc Hd].
  apply negb_true_iff in Hc.
  change (String c d ++ String "000" rest)%string
    with (String c (d ++ String "000" rest)%string).
  cbn [c_string]. rewrite Hc, (IH Hd). reflexivity.
Qed.

(** The handler reads [data] as a C string cut at [length]. For [data]
    without a NUL character: what follows the first [length] characters
    is not looked at, and what follows a NUL character is not either (the
    NUL itself included). *)
Theorem onMessage_ignores_tail (data junk rest : string) (n : nat) :
  no_nul data = true ->
  onMessage env (data ++ junk) (String.length data) = onMessage_frame env data /\
  onMessage env (data ++ String "000" rest) n = onMessage env data n.
Proof.
  intros H. unfold onMessage. split.
  - rewrite substring_c_string; rewrite substring_take; [reflexivity | exact H].
  - now rewrite (c_string_cut data rest H), (c_string_no_nul data H).
Qed.

Lemma actuation_failure (vars : list R) (f : failure) :
  actuation vars = Fail f -> f = OutOfRange.
Proof.
  unfold actuation, vector_at, bind_outcome.
  destruct (nth_error vars 6); [|intros H; now injection H].
  destruct (nth_error vars 7); [discriminate | intros H; now injection H].
Qed.

(** The ways one telemetry cycle can go. *)
Lemma telemetry_cycle_cases (j : json env) :
  (exists f, telemetry_cycle env j = ([], Fail f) /\
             (f = AssertionFailed ->
              exists ptsx, json_numbers env j "ptsx" = Some ptsx /\
                           (length ptsx < 4)%nat)) \/
  (exists state coeffs,
      telemetry_cycle env j = ([SolveCall state coeffs], Fail OutOfRange)) \/
  (exists state coeffs dumped,
      telemetry_cycle env j
      = ([SolveCall state coeffs; Log (steer_msg dumped); Sleep 100;
          Send (steer_msg dumped)], Ok tt)).
Proof.
  unfold telemetry_cycle.
  destruct (json_numbers env j "ptsx") as [ptsx|] eqn:E1;
    [|left; exists UncaughtException; split; [reflexivity | discriminate]].
  destruct (json_numbers env j "ptsy") as [ptsy|];
    [|left; exists UncaughtException; split; [reflexivity | discriminate]].
  destruct (json_number env j "x") as [px|];
    [|left; exists UncaughtException; split; [reflexivity | discriminate]].
  destruct (json_number env j "y") as [py|];
    [|left; exists UncaughtException; split; [reflexivity | discriminate]].
  destruct (json_number env j "psi") as [psi|];
    [|left; exists UncaughtException; split; [reflexivity | discriminate]].
  destruct (json_number env j "speed") as [v|];
    [|left; exists UncaughtException; split; [reflexivity | discriminate]].
  cbn [throwing]. rewrite !bind_ret.
  destruct (le_lt_dec (length ptsx) (length ptsy)) as [Hle | Hgt].
  2:{ left. exists OutOfRange. split; [|discriminate].
      rewrite (transform_short_y px py psi ptsx ptsy Hgt). reflexivity. }
  rewrite (transform_points px py psi ptsx ptsy Hle), bind_lift_ok.
  assert (Lx : length (map fst (frame_points px py psi ptsx ptsy)) = length ptsx)
    by (unfold frame_points; rewrite !length_map, length_combine; lia).
  assert (Ly : length (map snd (frame_points px py psi ptsx ptsy)) = length ptsx)
    by (unfold frame_points; rewrite !length_map, length_combine; lia).
  destruct (le_lt_dec 4 (length ptsx)) as [H4 | H4].
  2:{ left. exists AssertionFailed. split.
      - rewrite polyfit_short by lia. reflexivity.
      - intros _. exists ptsx. split; [reflexivity | exact H4]. }
  right. rewrite polyfit_enough by lia. rewrite bind_lift_ok. cbv zeta.
  rewrite bind_emit.
  destruct (mpc_Solve env _ _) as [[vars x_vars] y_vars].
  destruct (actuation vars) as [[steer_value throttle_value] | f] eqn:EA.
  - right. rewrite bind_lift_ok. do 3 eexists. reflexivity.
  - left. rewrite (actuation_failure vars f EA). do 2 eexists. reflexivity.
Qed.

(** The ways the handler can go on one frame. *)
Lemma onMessage_frame_cases (sdata : string) :
  onMessage_frame env sdata = ([Log sdata], Ok tt) \/
  onMessage_frame env sdata = ([Log sdata; Send manual_msg], Ok tt) \/
  onMessage_frame env sdata = ([Log sdata], Fail UncaughtException) \/
  (exists j, json_parse env (hasData sdata) = Some j /\
             onMessage_frame env sdata
             = (Log sdata :: trace (telemetry_cycle env j),
                result (telemetry_cycle env j))).
Proof.
  unfold onMessage_frame.
  destruct ((2 <? Str.size sdata)%Z && char_is sdata 0 "4" && char_is sdata 1 "2");
    [|left; reflexivity].
  destruct (is_empty (hasData sdata)); cbn [negb];
    [right; left; reflexivity|].
  destruct (json_parse env (hasData sdata)) as [j|];
    [|right; right; left; reflexivity].
  cbn [throwing]. rewrite bind_ret.
  destruct (json_event env j) as [name|];
    [|right; right; left; reflexivity].
  cbn [throwing]. rewrite bind_ret.
  destruct (String.eqb name "telemetry").
  - right; right; right. exists j. split; [reflexivity|]. apply bind_emit.
  - left. reflexivity.
Qed.

(** Whatever the frame and whatever the collaborators answer: the handler
    first logs the frame; it sends at most one message and calls the
    optimizer at most once; a message it sends is the last thing it does;
    and when it ends the process at an assertion or at an exception, it
    has sent nothing. *)
Theorem onMessage_frame_discipline (sdata : string) :
  let t := trace (onMessage_frame env sdata) in
  hd_error t = Some (Log sdata) /\
  (length (sends t) <= 1)%nat /\
  (length (solve_calls t) <= 1)%nat /\
  (forall msg, In msg (sends t) -> last t (Log sdata) = Send msg) /\
  (forall f, result (onMessage_frame env sdata) = Fail f ->
             f = AssertionFailed \/ f = UncaughtException -> sends t = []).
Proof.
  intros t. subst t.
  destruct (onMessage_frame_cases sdata) as [E | [E | [E | (j & _ & E)]]];
    rewrite E; unfold trace, result; cbn [fst snd].
  4: destruct (telemetry_cycle_cases j)
      as [(f & C & _) | [(st & c & C) | (st & c & msg & C)]];
      rewrite C; cbn [fst snd].
  all: repeat split; simpl; try lia; try discriminate; try tauto.
  all: intros m [<- | []]; reflexivity.
Qed.

(** The handler stops at an assertion only on a telemetry message with
    fewer than four [ptsx]: the first assertion of [polyfit] (equal sizes)
    cannot fail there, since the transform returns two vectors of one size. *)
Theorem assertion_only_on_short_path (sdata : string) :
  result (onMessage_frame env sdata) = Fail AssertionFailed ->
  exists j ptsx,
    json_parse env (hasData sdata) = Some j /\
    json_numbers env j "ptsx" = Some ptsx /\
    (length ptsx < 4)%nat.
Proof.
  destruct (onMessage_frame_cases sdata) as [E | [E | [E | (j & Hj & E)]]];
    rewrite E; unfold result; cbn [snd]; try discriminate.
  destruct (telemetry_cycle_cases j)
    as [(f & C & Hf) | [(st & c & C) | (st & c & msg & C)]];
    rewrite C; cbn [snd]; try discriminate.
  intros F. injection F as ->. destruct (Hf eq_refl) as (ptsx & Hp & Hl).
  exists j, ptsx. repeat split; assumption.
Qed.

End MoreHandler.

Lemma non_event_frame_ignored_witness :
  onMessage_frame sample_env "42" = ([Log "42"], Ok tt) /\
  onMessage_frame sample_env "3probe" = ([Log "3probe"], Ok tt).
Proof.
  split.
  - apply (non_event_frame_ignored sample_env "42"). right. simpl. lia.
  - apply (non_event_frame_ignored sample_env "3probe"). left. reflexivity.
Defined.

Lemma assertion_only_on_short_path_witness :
  exists j ptsx,
    json_parse sample_env (hasData frame_short) = Some j /\
    json_numbers sample_env j "ptsx" = Some ptsx /\
    (length ptsx < 4)%nat.
Proof.
  apply (assertion_only_on_short_path sample_env frame_short).
  reflexivity.
Defined.

Section MoreHandlerFailures.

Local Open Scope list_scope.

Variable env : Collaborators.

Lemma telemetry_cycle_missing (j : json env) :
  json_numbers env j "ptsx" = None \/ json_numbers env j "ptsy" = None \/
  json_number env j "x" = None \/ json_number env j "y" = None \/
  json_number env j "psi" = None \/ json_number env j "speed" = None ->
  telemetry_cycle env j = ([], Fail UncaughtException).
Proof.
  intros H. unfold telemetry_cycle.
  destruct (json_numbers env j "ptsx"); [|reflexivity].
  destruct (json_numbers env j "ptsy"); [|reflexivity].
  destruct (json_number env j "x"); [|reflexivity].
  destruct (json_number env j "y"); [|reflexivity].
  destruct (json_number env j "psi"); [|reflexivity].
  destruct (json_number env j "speed"); [|reflexivity].
  exfalso. destruct H as [H | [H | [H | [H | [H | H]]]]]; discriminate.
Qed.

(** Nothing catches what the codec throws: on an event frame with data, a
    payload that does not parse, a first element that is not a string, or a
    telemetry object without one of its six fields ends the process, with
    nothing sent and no later frame handled. *)
Theorem decode_failure_ends_process (sdata : string) (later : list string) :
  prefix "42" sdata = true -> hasData sdata <> EmptyString ->
  (json_parse env (hasData sdata) = None \/
   exists j, json_parse env (hasData sdata) = Some j /\
     (json_event env j = None \/
      (json_event env j = Some "telemetry"%string /\
       (json_numbers env j "ptsx" = None \/ json_numbers env j "ptsy" = None \/
        json_number env j "x" = None \/ json_number env j "y" = None \/
        json_number env j "psi" = None \/ json_number env j "speed" = None)))) ->
  onMessage_frame env sdata = ([Log sdata], Fail UncaughtException) /\
  serve env (sdata :: later) = ([Log sdata], Dead UncaughtException).
Proof.
  intros P H D.
  assert (E : onMessage_frame env sdata = ([Log sdata], Fail UncaughtException)).
  { destruct D as [Hp | (j & Hj & [He | [He Hf]])].
    - unfold onMessage_frame.
      rewrite (event_frame_guard sdata P (hasData_nonempty_long sdata H)).
      rewrite (is_empty_false _ H), Hp. reflexivity.
    - unfold onMessage_frame.
      rewrite (event_frame_guard sdata P (hasData_nonempty_long sdata H)).
      rewrite (is_empty_false _ H), Hj. cbn [negb throwing].
      rewrite bind_ret, He. reflexivity.
    - rewrite (onMessage_frame_decoded env sdata j _ P H Hj He).
      cbn [String.eqb Ascii.eqb Bool.eqb].
      rewrite (telemetry_cycle_missing j Hf). reflexivity. }
  split; [exact E|]. cbn [serve]. rewrite E. reflexivity.
Qed.

(** The manual-driving message [42["manual",{}]] is sent exactly when
    what the handler reads of the received characters (the C string cut at
    [length]) starts with [42], has more than two characters, and gives an
    empty [hasData]; a steering message is never mistaken for it. *)
Theorem manual_reply_iff (data : string) (length : nat) :
  In (Send ("42[" ++ String "034" ("manual" ++ String "034" ",{}]"))%string)
     (trace (onMessage env data length)) <->
  prefix "42" (substring 0 length (c_string data)) = true /\
  (2 < String.length (substring 0 length (c_string data)))%nat /\
  hasData (substring 0 length (c_string data)) = EmptyString.
Proof.
  unfold onMessage. set (sdata := substring 0 length (c_string data)).
  change ("42[" ++ String "034" ("manual" ++ String "034" ",{}]"))%string
    with manual_msg.
  split.
  - intros I.
    destruct ((2 <? Str.size sdata)%Z && char_is sdata 0 "4" && char_is sdata 1 "2")
      eqn:G.
    + destruct (event_frame_guard_inv sdata G) as [P L].
      split; [exact P|]. split; [exact L|].
      destruct (hasData sdata) as [|ch h] eqn:Hd; [reflexivity | exfalso].
      assert (Hne : hasData sdata <> EmptyString) by (rewrite Hd; discriminate).
      destruct (onMessage_frame_cases env sdata)
        as [E | [E | [E | (j & _ & E)]]].
      * rewrite E in I. destruct I as [I | []]. discriminate.
      * unfold onMessage_frame in E. rewrite G, (is_empty_false _ Hne) in E.
        cbn [negb] in E.
        destruct (json_parse env (hasData sdata)) as [j|]; [|discriminate].
        cbn [throwing] in E. rewrite bind_ret in E.
        destruct (json_event env j) as [name|]; [|discriminate].
        cbn [throwing] in E. rewrite bind_ret in E.
        destruct (String.eqb name "telemetry"); [|discriminate].
        rewrite bind_emit in E.
        destruct (telemetry_cycle_cases env j)
          as [(f & C & _) | [(st & c & C) | (st & c & d & C)]];
          rewrite C in E; discriminate.
      * rewrite E in I. destruct I as [I | []]. discriminate.
      * rewrite E in I. unfold trace in I. cbn [fst] in I.
        destruct I as [I | I]; [discriminate|].
        destruct (telemetry_cycle_cases env j)
          as [(f & C & _) | [(st & c & C) | (st & c & d & C)]];
          rewrite C in I; cbn [fst] in I.
        -- destruct I.
        -- destruct I as [I | []]. discriminate.
        -- destruct I as [I | [I | [I | [I | []]]]]; discriminate.
    + exfalso. unfold onMessage_frame, trace in I. rewrite G in I.
      destruct I as [I | []]. discriminate.
  - intros (P & L & Hd).
    rewrite (onMessage_frame_no_data env sdata P); [right; left; reflexivity | | exact Hd].
    intros ->. simpl in L. lia.
Qed.

End MoreHandlerFailures.

Lemma decode_failure_ends_process_witness :
  onMessage_frame sample_env "42[{}]" = ([Log "42[{}]"], Fail UncaughtException).
Proof.
  apply (decode_failure_ends_process sample_env "42[{}]" []).
  - reflexivity.
  - vm_compute. discriminate.
  - left. reflexivity.
Defined.

Lemma manual_reply_iff_witness :
  In (Send ("42[" ++ String "034" ("manual" ++ String "034" ",{}]"))%string)
     (trace (onMessage sample_env frame_null (String.length frame_null))).
Proof.
  apply (proj2 (manual_reply_iff sample_env frame_null (String.length frame_null))).
  split; [reflexivity|]. split; [simpl; lia | vm_compute; reflexivity].
Defined.

Lemma onMessage_ignores_tail_witness :
  onMessage sample_env ("42" ++ String "000" payload_null) 20
  = onMessage sample_env "42" 20.
Proof.
  apply (proj2 (onMessage_ignores_tail sample_env "42" EmptyString payload_null 20
                  eq_refl)).
Defined.
